(** * MCP dissector (wireshark/mcp_dissector.c): WebSocket header decoding
      and best-effort JSON-RPC field extraction

    The development embeds the dissector shallowly.  The C strings the
    extractor scans are modelled as heap blocks whose every byte is listed,
    terminator included, so that a read or a write outside the block is an
    observable event of the model and not an assumption. *)

From Stdlib Require Import ZArith List Bool Ascii String Lia Strings.Byte.
From Stdlib Require Import Numbers.DecimalString.
Import ListNotations.

Local Open Scope string_scope.
Local Open Scope list_scope.
Local Open Scope Z_scope.

(* ================================================================== *)
(** ** Characters and literals *)

Definition NUL : ascii := "000"%char.
Definition DQUOTE : ascii := "034"%char.
Definition TAB : ascii := "009"%char.
Definition SPACE : ascii := " "%char.
Definition COLON : ascii := ":"%char.
Definition COMMA : ascii := ","%char.
Definition LBRACE : ascii := "{"%char.
Definition RBRACE : ascii := "}"%char.

(** A key as the C literals spell it: a name between two double quotes. *)
Definition quoted (name : string) : string :=
  String DQUOTE (name ++ String DQUOTE EmptyString)%string.

(** JSON sample texts are written with an apostrophe where the payload has a
    double quote; [json] puts the double quotes back. *)
Fixpoint json (s : string) : string :=
  match s with
  | EmptyString => EmptyString
  | String c r => String (if (c =? "'")%char then DQUOTE else c) (json r)
  end.

(* ================================================================== *)
(** ** Heap blocks and the C string functions the dissector calls *)

(** A block is one allocation; the string lists all its bytes.  A pointer
    into it is an offset.  [wmem_strdup] of a text [t] yields the block
    [t ++ NUL]. *)
Definition block := string.

Definition c_string (t : string) : block := (t ++ String NUL EmptyString)%string.

(** Outcome of a library scan over a block. *)
Inductive scan (A : Type) : Type :=
| Hit (a : A)   (* stopped on what was looked for *)
| Miss          (* stopped on the terminating NUL: the C function returns NULL *)
| Oob.          (* needed a byte past the end of the block *)
Arguments Hit {A} a.
Arguments Miss {A}.
Arguments Oob {A}.

Definition shift (r : scan nat) : scan nat :=
  match r with
  | Hit n => Hit (S n)
  | Miss => Miss
  | Oob => Oob
  end.

Fixpoint drop (p : nat) (b : block) : block :=
  match p, b with
  | O, _ => b
  | S p', String _ r => drop p' r
  | S _, EmptyString => EmptyString
  end.

(** Reading the byte a pointer designates. *)
Definition peek (b : block) (p : nat) : option ascii := String.get p b.

(** Writing a byte through a pointer. *)
Fixpoint poke (b : block) (p : nat) (c : ascii) : option block :=
  match b, p with
  | EmptyString, _ => None
  | String _ r, O => Some (String c r)
  | String x r, S p' => option_map (String x) (poke r p' c)
  end.

(** Does the C string at [h] start with [needle]?  [Hit tt]: yes; [Miss]: a
    byte differs (the terminator differs from every needle byte). *)
Fixpoint starts_with (needle h : string) : scan unit :=
  match needle, h with
  | EmptyString, _ => Hit tt
  | String _ _, EmptyString => Oob
  | String n needle', String c h' =>
      if (c =? n)%char then starts_with needle' h' else Miss
  end.

(** [strstr(h, needle)], as an offset from [h]. *)
Fixpoint c_strstr (needle h : string) : scan nat :=
  match starts_with needle h with
  | Hit _ => Hit O
  | Oob => Oob
  | Miss =>
      match h with
      | EmptyString => Oob
      | String c h' => if (c =? NUL)%char then Miss else shift (c_strstr needle h')
      end
  end.

(** [strchr(h, c)] for a [c] other than NUL, as an offset from [h]. *)
Fixpoint c_strchr (c : ascii) (h : string) : scan nat :=
  match h with
  | EmptyString => Oob
  | String x h' =>
      if (x =? c)%char then Hit O
      else if (x =? NUL)%char then Miss
      else shift (c_strchr c h')
  end.

(** [strlen(h)]; [None] when the block holds no terminator. *)
Fixpoint c_strlen (h : string) : option nat :=
  match h with
  | EmptyString => None
  | String x h' => if (x =? NUL)%char then Some O else option_map S (c_strlen h')
  end.

(** The text of the C string at [h]: what [wmem_strdup] copies. *)
Fixpoint c_text (h : string) : option string :=
  match h with
  | EmptyString => None
  | String x h' => if (x =? NUL)%char then Some EmptyString
                   else option_map (String x) (c_text h')
  end.

(** The loop that steps [pos] over spaces and tabs, as an offset from [h]. *)
Fixpoint skip_blanks (h : string) : option nat :=
  match h with
  | EmptyString => None
  | String x h' =>
      if ((x =? SPACE) || (x =? TAB))%char then option_map S (skip_blanks h')
      else Some O
  end.

(** The numeric-id loop: [end] advances to the first NUL, comma or closing
    brace. *)
Fixpoint id_end (h : string) : option nat :=
  match h with
  | EmptyString => None
  | String x h' =>
      if ((x =? NUL) || (x =? COMMA) || (x =? RBRACE))%char then Some O
      else option_map S (id_end h')
  end.

(** The brace-counting loop shared by ratchet_header, params and result.
    It runs until the terminator; an opening brace increments [brace_count],
    a closing brace decrements it and, when the count is back to zero, steps
    [end] past that brace and leaves the loop.  The result is [end] as an
    offset from [h].  The counter moves by one per byte of a packet, so it
    stays far inside the range of [int]. *)
Fixpoint brace_end (h : string) (brace_count : Z) : option nat :=
  match h with
  | EmptyString => None
  | String x h' =>
      if (x =? NUL)%char then Some O
      else if (x =? LBRACE)%char then option_map S (brace_end h' (brace_count + 1))
      else if (x =? RBRACE)%char then
        if brace_count - 1 =? 0 then Some 1%nat
        else option_map S (brace_end h' (brace_count - 1))
      else option_map S (brace_end h' brace_count)
  end.

(** [strncpy(dst, src, n)]: copies up to the terminator of [src] and pads
    with NUL up to [n] bytes. *)
Fixpoint c_strncpy (dst src : block) (n : nat) (padding : bool) {struct n}
    : option block :=
  match n with
  | O => Some dst
  | S n' =>
      match dst with
      | EmptyString => None
      | String _ dst' =>
          if padding then option_map (String NUL) (c_strncpy dst' src n' true)
          else match src with
               | EmptyString => None
               | String x src' =>
                   option_map (String x)
                     (c_strncpy dst' src' n' (x =? NUL)%char)
               end
      end
  end.

(** [char buf[n] = {0}] *)
Fixpoint zeroed (n : nat) : block :=
  match n with
  | O => EmptyString
  | S n' => String NUL (zeroed n')
  end.

(** [strtol(h, &end, 10)] where [h] starts with a minus sign or a digit, on a
    platform whose [long] has 64 bits: the digits are accumulated, a value
    out of range is clamped to LONG_MIN or LONG_MAX, and a lone minus sign
    converts nothing and yields 0.  [None] when the digits run to the end of
    the block. *)
Definition is_digit (c : ascii) : bool :=
  let n := Z.of_N (N_of_ascii c) in (48 <=? n) && (n <=? 57).

Definition digit_value (c : ascii) : Z := Z.of_N (N_of_ascii c) - 48.

Fixpoint digits (h : string) (acc : Z) : option Z :=
  match h with
  | EmptyString => None
  | String x h' =>
      if is_digit x then digits h' (10 * acc + digit_value x) else Some acc
  end.

Definition LONG_MAX : Z := 2 ^ 63 - 1.
Definition LONG_MIN : Z := - 2 ^ 63.

Definition c_strtol (h : string) : option Z :=
  match h with
  | EmptyString => None
  | String x h' =>
      if (x =? "-")%char
      then option_map (fun v => Z.max LONG_MIN (- v)) (digits h' 0)
      else option_map (fun v => Z.min LONG_MAX v) (digits h 0)
  end.

(** The conversion [(int)] of a [long]: the low 32 bits, read as signed. *)
Definition to_int (z : Z) : Z := (z + 2 ^ 31) mod 2 ^ 32 - 2 ^ 31.

(* ================================================================== *)
(** ** The record the extractor fills *)

Record mcp_json_data_t : Type := mk_data {
  jsonrpc : option string;
  method : option string;
  id : option string;
  params : option string;
  result : option string;
  error_code : Z;
  error_message : option string;
  agent_id : option string;
  encrypted : bool;
  ciphertext : option string;
  iv : option string;
  ratchet_header : option string
}.

(** [mcp_json_data_t json_data = {0};] *)
Definition zero_data : mcp_json_data_t :=
  mk_data None None None None None 0 None None false None None None.

Definition set_jsonrpc (v : string) (d : mcp_json_data_t) :=
  mk_data (Some v) (method d) (id d) (params d) (result d) (error_code d)
    (error_message d) (agent_id d) (encrypted d) (ciphertext d) (iv d)
    (ratchet_header d).
Definition set_method (v : string) (d : mcp_json_data_t) :=
  mk_data (jsonrpc d) (Some v) (id d) (params d) (result d) (error_code d)
    (error_message d) (agent_id d) (encrypted d) (ciphertext d) (iv d)
    (ratchet_header d).
Definition set_id (v : string) (d : mcp_json_data_t) :=
  mk_data (jsonrpc d) (method d) (Some v) (params d) (result d) (error_code d)
    (error_message d) (agent_id d) (encrypted d) (ciphertext d) (iv d)
    (ratchet_header d).
Definition set_params (v : string) (d : mcp_json_data_t) :=
  mk_data (jsonrpc d) (method d) (id d) (Some v) (result d) (error_code d)
    (error_message d) (agent_id d) (encrypted d) (ciphertext d) (iv d)
    (ratchet_header d).
Definition set_result (v : string) (d : mcp_json_data_t) :=
  mk_data (jsonrpc d) (method d) (id d) (params d) (Some v) (error_code d)
    (error_message d) (agent_id d) (encrypted d) (ciphertext d) (iv d)
    (ratchet_header d).
Definition set_error_code (v : Z) (d : mcp_json_data_t) :=
  mk_data (jsonrpc d) (method d) (id d) (params d) (result d) v
    (error_message d) (agent_id d) (encrypted d) (ciphertext d) (iv d)
    (ratchet_header d).
Definition set_error_message (v : string) (d : mcp_json_data_t) :=
  mk_data (jsonrpc d) (method d) (id d) (params d) (result d) (error_code d)
    (Some v) (agent_id d) (encrypted d) (ciphertext d) (iv d)
    (ratchet_header d).
Definition set_agent_id (v : string) (d : mcp_json_data_t) :=
  mk_data (jsonrpc d) (method d) (id d) (params d) (result d) (error_code d)
    (error_message d) (Some v) (encrypted d) (ciphertext d) (iv d)
    (ratchet_header d).
Definition set_encrypted (d : mcp_json_data_t) :=
  mk_data (jsonrpc d) (method d) (id d) (params d) (result d) (error_code d)
    (error_message d) (agent_id d) true (ciphertext d) (iv d)
    (ratchet_header d).
Definition set_ciphertext (v : string) (d : mcp_json_data_t) :=
  mk_data (jsonrpc d) (method d) (id d) (params d) (result d) (error_code d)
    (error_message d) (agent_id d) (encrypted d) (Some v) (iv d)
    (ratchet_header d).
Definition set_iv (v : string) (d : mcp_json_data_t) :=
  mk_data (jsonrpc d) (method d) (id d) (params d) (result d) (error_code d)
    (error_message d) (agent_id d) (encrypted d) (ciphertext d) (Some v)
    (ratchet_header d).
Definition set_ratchet_header (v : string) (d : mcp_json_data_t) :=
  mk_data (jsonrpc d) (method d) (id d) (params d) (result d) (error_code d)
    (error_message d) (agent_id d) (encrypted d) (ciphertext d) (iv d)
    (Some v).

(* ================================================================== *)
(** ** The machine parse_json_rpc runs on

    The function works on [json_copy], its private copy of the payload, which
    it patches in place while it cuts values out, and on the caller's record.
    A command either yields a value or stops the run at the first access
    outside [json_copy]; the record keeps what was stored before. *)

Record machine : Type := mk_machine {
  json_copy : block;
  data : mcp_json_data_t
}.

Definition run (A : Type) : Type := machine -> option A * machine.

Definition ret {A : Type} (a : A) : run A := fun m => (Some a, m).

Definition bind {A B : Type} (c : run A) (k : A -> run B) : run B :=
  fun m =>
    match c m with
    | (Some a, m') => k a m'
    | (None, m') => (None, m')
    end.

Definition fault {A : Type} : run A := fun m => (None, m).

Notation "x <- c ;; k" := (bind c (fun x => k))
  (at level 61, c at next level, right associativity).
Notation "c ;;; k" := (bind c (fun _ => k))
  (at level 61, right associativity).

Definition of_option {A : Type} (o : option A) : run A :=
  match o with
  | Some a => ret a
  | None => fault
  end.

(** A pointer result: [Some p], or [None] for NULL. *)
Definition of_scan (base : nat) (r : scan nat) : run (option nat) :=
  match r with
  | Hit n => ret (Some (base + n)%nat)
  | Miss => ret None
  | Oob => fault
  end.

(** A command that looks at [json_copy]. *)
Definition reading {A : Type} (k : block -> run A) : run A :=
  fun m => k (json_copy m) m.

Definition load (p : nat) : run ascii :=
  reading (fun b => of_option (peek b p)).

Definition store (p : nat) (c : ascii) : run unit :=
  fun m =>
    match poke (json_copy m) p c with
    | Some b => (Some tt, mk_machine b (data m))
    | None => (None, m)
    end.

Definition assign (f : mcp_json_data_t -> mcp_json_data_t) : run unit :=
  fun m => (Some tt, mk_machine (json_copy m) (f (data m))).

Definition strstr (p : nat) (needle : string) : run (option nat) :=
  reading (fun b => of_scan p (c_strstr needle (drop p b))).

Definition strchr (p : nat) (c : ascii) : run (option nat) :=
  reading (fun b => of_scan p (c_strchr c (drop p b))).

Definition skip_whitespace (p : nat) : run nat :=
  reading (fun b => of_option (option_map (Nat.add p) (skip_blanks (drop p b)))).

Definition wmem_strdup (p : nat) : run string :=
  reading (fun b => of_option (c_text (drop p b))).

(** [strncmp(pos, "true", 4) == 0] *)
Definition strncmp_true (p : nat) : run bool :=
  reading (fun b =>
    match starts_with "true" (drop p b) with
    | Hit _ => ret true
    | Miss => ret false
    | Oob => fault
    end).

(** The two loops that move [end], yielding its final position. *)
Definition numeric_end (p : nat) : run nat :=
  reading (fun b => of_option (option_map (Nat.add p) (id_end (drop p b)))).

Definition matching_brace_end (p : nat) : run nat :=
  reading (fun b => of_option (option_map (Nat.add p) (brace_end (drop p b) 0))).

(** [(int)strtol(pos, &end, 10)] *)
Definition strtol (p : nat) : run Z :=
  reading (fun b => of_option (option_map to_int (c_strtol (drop p b)))).

Definition when_found {A : Type} (p : option A) (k : A -> run unit) : run unit :=
  match p with
  | Some a => k a
  | None => ret tt
  end.

(* ================================================================== *)
(** ** parse_json_rpc *)

(** The opening every field shares: [strstr] for the key from the start of
    [json_copy], [strchr] for the next colon, one step past it, then over
    spaces and tabs.  Yields the position of the value, or NULL when the key
    or the colon is missing. *)
Definition value_position (key : string) : run (option nat) :=
  pos <- strstr 0 key ;;
  match pos with
  | None => ret None
  | Some pos =>
      pos <- strchr pos COLON ;;
      match pos with
      | None => ret None
      | Some pos =>
          pos <- skip_whitespace (S pos) ;;
          ret (Some pos)
      end
  end.

(** The value is a string: [pos] is on its opening quote.  The closing quote
    is replaced by NUL while the value is copied and put back afterwards. *)
Definition quoted_value (pos : nat)
    (set : string -> mcp_json_data_t -> mcp_json_data_t) : run unit :=
  let value_start := S pos in
  e <- strchr value_start DQUOTE ;;
  when_found e (fun e =>
    store e NUL ;;;
    v <- wmem_strdup value_start ;;
    assign (set v) ;;;
    store e DQUOTE).

(** jsonrpc, method, ciphertext, iv and message: string values only. *)
Definition extract_string (key : string)
    (set : string -> mcp_json_data_t -> mcp_json_data_t) : run unit :=
  pos <- value_position key ;;
  when_found pos (fun pos =>
    c <- load pos ;;
    if (c =? DQUOTE)%char then quoted_value pos set else ret tt).

(** id: a string value, or else the text up to the next comma or closing
    brace.  After the copy the source reads the byte it has just set to NUL
    to choose what to put back, so a closing brace is written whatever stood
    there. *)
Definition extract_id : run unit :=
  pos <- value_position (quoted "id") ;;
  when_found pos (fun pos =>
    c <- load pos ;;
    if (c =? DQUOTE)%char then quoted_value pos set_id
    else
      let value_start := pos in
      e <- numeric_end pos ;;
      if (value_start <? e)%nat then
        store e NUL ;;;
        v <- wmem_strdup value_start ;;
        assign (set_id v) ;;;
        c <- load e ;;
        store e (if (c =? COMMA)%char then COMMA else RBRACE)
      else ret tt).

(** ratchet_header, params and result: object values only.  [after] is what
    the source does with the copy once the byte at [end] has been
    overwritten with a closing brace. *)
Definition extract_object (key : string)
    (set : string -> mcp_json_data_t -> mcp_json_data_t)
    (after : string -> run unit) : run unit :=
  pos <- value_position key ;;
  when_found pos (fun pos =>
    c <- load pos ;;
    if (c =? LBRACE)%char then
      let value_start := pos in
      e <- matching_brace_end pos ;;
      if (value_start <? e)%nat then
        store e NUL ;;;
        v <- wmem_strdup value_start ;;
        assign (set v) ;;;
        store e RBRACE ;;;
        after v
      else ret tt
    else ret tt).

(** *** extract_agent_id *)

(** Where the agent identifier lies in [params]: the offset just after the
    opening quote of the value, and [end - pos], the distance to the closing
    quote.  The key agentId is looked up first, agent_id only when agentId
    does not occur. *)
Definition agent_value_span (params : block) : scan (nat * nat) :=
  let key :=
    match c_strstr (quoted "agentId") params with
    | Miss => c_strstr (quoted "agent_id") params
    | r => r
    end in
  match key with
  | Oob => Oob
  | Miss => Miss
  | Hit k =>
      match c_strchr COLON (drop k params) with
      | Oob => Oob
      | Miss => Miss
      | Hit c =>
          let after_colon := S (k + c) in
          match skip_blanks (drop after_colon params) with
          | None => Oob
          | Some w =>
              let pos := (after_colon + w)%nat in
              match peek params pos with
              | None => Oob
              | Some ch =>
                  if (ch =? DQUOTE)%char then
                    match c_strchr DQUOTE (drop (S pos) params) with
                    | Oob => Oob
                    | Miss => Miss
                    | Hit n => Hit (S pos, n)
                    end
                  else Miss
              end
          end
      end
  end.

(** The result is the new content of the caller's [agent_id] array; [None]
    when an access leaves one of the two blocks.  Both pointers are never
    NULL at the only call site. *)
Definition extract_agent_id (params : block) (agent_id : block)
    (agent_id_len : nat) : option block :=
  if (agent_id_len =? 0)%nat then Some agent_id
  else
    match agent_value_span params with
    | Oob => None
    | Miss => Some agent_id
    | Hit (pos, n) =>
        if (n <? agent_id_len)%nat then
          match c_strncpy agent_id (drop pos params) n false with
          | Some copied => poke copied n NUL
          | None => None
          end
        else Some agent_id
    end.

(** What follows the copy of params: the agent identifier is looked up in
    that copy, through the zeroed 256-byte local array. *)
Definition agent_id_from_params (params_text : string) : run unit :=
  buf <- of_option (extract_agent_id (c_string params_text) (zeroed 256) 256) ;;
  len <- of_option (c_strlen buf) ;;
  if (0 <? len)%nat then
    a <- of_option (c_text buf) ;;
    assign (set_agent_id a)
  else ret tt.

(** The encryption block: the three fields are looked up only once the value
    of encrypted has compared equal to the four bytes of true. *)
Definition extract_encryption : run unit :=
  pos <- value_position (quoted "encrypted") ;;
  when_found pos (fun pos =>
    is_true <- strncmp_true pos ;;
    if (is_true : bool) then
      assign set_encrypted ;;;
      extract_string (quoted "ciphertext") set_ciphertext ;;;
      extract_string (quoted "iv") set_iv ;;;
      extract_object (quoted "ratchet_header") set_ratchet_header
        (fun _ => ret tt)
    else ret tt).

Definition extract_error_code : run unit :=
  pos <- value_position (quoted "code") ;;
  when_found pos (fun pos =>
    c <- load pos ;;
    if ((c =? "-")%char || is_digit c)%bool then
      v <- strtol pos ;;
      assign (set_error_code v)
    else ret tt).

Definition parse_fields : run unit :=
  extract_string (quoted "jsonrpc") set_jsonrpc ;;;
  extract_string (quoted "method") set_method ;;;
  extract_id ;;;
  extract_encryption ;;;
  extract_object (quoted "params") set_params agent_id_from_params ;;;
  extract_object (quoted "result") set_result (fun _ => ret tt) ;;;
  extract_error_code ;;;
  extract_string (quoted "message") set_error_message.

(** [json_str] is the caller's block; [json_copy] is its [wmem_strdup]. *)
Definition parse_json_rpc (json_str : block) (d : mcp_json_data_t)
    : option unit * machine :=
  match c_text json_str with
  | Some t => parse_fields (mk_machine (c_string t) d)
  | None => (None, mk_machine EmptyString d)
  end.

(** The extractor on a payload text: the record it leaves, and whether the
    run stayed inside [json_copy]. *)
Definition extract (text : string) : mcp_json_data_t :=
  data (snd (parse_json_rpc (c_string text) zero_data)).

Definition extract_in_bounds (text : string) : bool :=
  match fst (parse_json_rpc (c_string text) zero_data) with
  | Some _ => true
  | None => false
  end.

(* ================================================================== *)
(** ** get_method_description and its three tables *)

Definition mcp_method_t : Type := (string * string)%type.

Definition mcp_methods : list mcp_method_t :=
  [ ("initialize", "Initialize MCP connection");
    ("tools/list", "List available tools");
    ("resources/list", "List available resources");
    ("tools/call", "Call a tool");
    ("resources/read", "Read a resource");
    ("notifications/initialized", "Connection initialized notification");
    ("notifications/chess/game_state", "Chess game state notification");
    ("notifications/chess/ai_move", "AI move notification");
    ("notifications/chess/training_progress", "Training progress notification") ].

Definition chess_tools : list mcp_method_t :=
  [ ("create_chess_game", "Create new chess game");
    ("make_chess_move", "Make a chess move");
    ("get_board_state", "Get current board state");
    ("analyze_position", "Analyze chess position");
    ("get_legal_moves", "Get legal moves");
    ("get_move_hint", "Get move hint");
    ("create_tournament", "Create tournament");
    ("get_tournament_status", "Get tournament status") ].

Definition chess_resources : list mcp_method_t :=
  [ ("chess://ai-systems", "AI systems information");
    ("chess://opening-book", "Opening book database");
    ("chess://game-history", "Game history");
    ("chess://training-data", "Training data");
    ("chess://performance-metrics", "Performance metrics") ].

(** One of the three loops: the first entry whose name compares equal. *)
Fixpoint lookup_method (table : list mcp_method_t) (name : string) : option string :=
  match table with
  | [] => None
  | (m, description) :: rest =>
      if String.eqb name m then Some description else lookup_method rest name
  end.

Definition get_method_description (name : string) : option string :=
  match lookup_method mcp_methods name with
  | Some d => Some d
  | None =>
      match lookup_method chess_tools name with
      | Some d => Some d
      | None => lookup_method chess_resources name
      end
  end.

(* ================================================================== *)
(** ** The captured buffer and the framework accessors

    A tvbuff is the list of its captured bytes.  The accessors belong to the
    capture framework; they check their range and throw, which is [None]
    here. *)

Definition tvbuff_t : Type := list byte.

Definition byte_value (b : byte) : Z := Z.of_N (Byte.to_N b).

Definition tvb_captured_length (tvb : tvbuff_t) : Z := Z.of_nat (List.length tvb).

Definition tvb_get_guint8 (tvb : tvbuff_t) (offset : Z) : option Z :=
  if offset <? 0 then None
  else option_map byte_value (nth_error tvb (Z.to_nat offset)).

(** Big-endian value of the [n] bytes at [offset]. *)
Fixpoint tvb_get_ntoh (n : nat) (tvb : tvbuff_t) (offset : Z) (acc : Z) : option Z :=
  match n with
  | O => Some acc
  | S n' =>
      match tvb_get_guint8 tvb offset with
      | Some b => tvb_get_ntoh n' tvb (offset + 1) (Z.lor (Z.shiftl acc 8) b)
      | None => None
      end
  end.

Definition tvb_get_ntohs (tvb : tvbuff_t) (offset : Z) : option Z :=
  tvb_get_ntoh 2 tvb offset 0.

Definition tvb_get_ntoh64 (tvb : tvbuff_t) (offset : Z) : option Z :=
  tvb_get_ntoh 8 tvb offset 0.

(** The framework's subset constructor, which takes its length as a signed
    [gint]: a negative length or an offset past the captured bytes throws,
    otherwise the slice holds the bytes that were captured. *)
Definition tvb_new_subset_length (tvb : tvbuff_t) (backing_offset reported_length : Z)
    : option tvbuff_t :=
  if reported_length <? 0 then None
  else if tvb_captured_length tvb <? backing_offset then None
  else Some (firstn (Z.to_nat reported_length) (skipn (Z.to_nat backing_offset) tvb)).

(** The framework's ENC_ASCII conversion of a whole tvbuff: a byte below
    0x80 is kept, any other becomes the UTF-8 bytes of U+FFFD; the block
    ends with a terminator. *)
Definition REPLACEMENT_CHAR : string :=
  String (ascii_of_byte xef) (String (ascii_of_byte xbf)
    (String (ascii_of_byte xbd) EmptyString)).

Fixpoint ascii_text (bytes : list byte) : string :=
  match bytes with
  | [] => EmptyString
  | b :: rest =>
      if byte_value b <? 0x80
      then String (ascii_of_byte b) (ascii_text rest)
      else (REPLACEMENT_CHAR ++ ascii_text rest)%string
  end.

Definition tvb_get_string_enc (tvb : tvbuff_t) : block := c_string (ascii_text tvb).

(* ================================================================== *)
(** ** dissect_mcp_websocket: the frame header *)

(** A [guint32]: the low 32 bits. *)
Definition u32 (z : Z) : Z := z mod 2 ^ 32.

Record ws_frame : Type := mk_frame {
  fin : Z;
  opcode : Z;
  offset : Z;        (* header length, where the payload starts *)
  payload_len : Z
}.

Inductive decoded : Type :=
| TooShort                 (* the function returns 0 *)
| Thrown                   (* a framework accessor threw *)
| Frame (f : ws_frame).

Definition decode_header (tvb : tvbuff_t) : decoded :=
  if tvb_captured_length tvb <? 2 then TooShort
  else
    match tvb_get_guint8 tvb 0, tvb_get_guint8 tvb 1 with
    | Some b0, Some b1 =>
        let fin := Z.shiftr (Z.land b0 0x80) 7 in
        let opcode := Z.land b0 0x0F in
        let payload_len := Z.land b1 0x7F in
        let offset := 2 in
        if payload_len =? 126 then
          if tvb_captured_length tvb <? offset + 2 then TooShort
          else
            match tvb_get_ntohs tvb offset with
            | Some payload_len_16 => Frame (mk_frame fin opcode (offset + 2) payload_len_16)
            | None => Thrown
            end
        else if payload_len =? 127 then
          if tvb_captured_length tvb <? offset + 8 then TooShort
          else
            match tvb_get_ntoh64 tvb offset with
            | Some payload_len_64 => Frame (mk_frame fin opcode (offset + 8) (u32 payload_len_64))
            | None => Thrown
            end
        else Frame (mk_frame fin opcode offset payload_len)
    | _, _ => Thrown
    end.

(* ================================================================== *)
(** ** dissect_mcp_websocket: what is handed to the framework

    The calls that build the protocol tree and the summary columns are
    recorded in order.  [tree] is assumed present. *)

Inductive ett : Type := ett_mcp | ett_mcp_ws | ett_mcp_encryption.

Inductive hf : Type :=
| hf_mcp_version | hf_mcp_method | hf_mcp_id | hf_mcp_params | hf_mcp_result
| hf_mcp_error_code | hf_mcp_error_message | hf_mcp_agent_id
| hf_mcp_encrypted | hf_mcp_ciphertext | hf_mcp_iv | hf_mcp_ratchet_header
| hf_ws_opcode | hf_ws_fin | hf_ws_payload_length | hf_ws_payload.

Inductive proto_tree : Type := tree | ws_tree | mcp_tree | encryption_tree.

Inductive buffer_ref : Type := on_tvb | on_payload_tvb.

Inductive field_value : Type :=
| Uint (z : Z)
| Int (z : Z)
| Boolean (b : bool)
| Text (s : string).

Inductive event : Type :=
| add_subtree (parent : proto_tree) (buf : buffer_ref) (start len : Z)
    (idx : ett) (label : string)
| add_item (parent : proto_tree) (field : hf) (buf : buffer_ref)
    (start len : Z) (v : field_value)
| append_text (s : string)
| col_set_protocol (s : string)
| col_set_info (s : string)
| col_append_info (s : string).

Inductive status : Type :=
| Returned (n : Z)     (* the value the function returns *)
| Exception            (* a framework accessor threw *)
| OutOfBounds.         (* parse_json_rpc left json_copy *)

Record dissection : Type := mk_dissection {
  events : list event;
  outcome : status
}.

Definition show_int (z : Z) : string := NilZero.string_of_int (Z.to_int z).

Definition add_string (parent : proto_tree) (field : hf) (v : option string)
    : list event :=
  match v with
  | Some s => [add_item parent field on_payload_tvb 0 0 (Text s)]
  | None => []
  end.

(** The body guarded by the comparison of jsonrpc with 2.0. *)
Definition mcp_events (json_data : mcp_json_data_t) : list event :=
  [add_subtree ws_tree on_payload_tvb 0 (-1) ett_mcp "Model Context Protocol"]
  ++ add_string mcp_tree hf_mcp_version (jsonrpc json_data)
  ++ match method json_data with
     | Some m =>
         add_item mcp_tree hf_mcp_method on_payload_tvb 0 0 (Text m)
         :: match get_method_description m with
            | Some method_desc => [append_text (" (" ++ method_desc ++ ")")]
            | None => []
            end
     | None => []
     end
  ++ add_string mcp_tree hf_mcp_id (id json_data)
  ++ (if encrypted json_data then
        [add_subtree mcp_tree on_payload_tvb 0 0 ett_mcp_encryption "Encryption";
         add_item encryption_tree hf_mcp_encrypted on_payload_tvb 0 0 (Boolean true)]
        ++ add_string encryption_tree hf_mcp_ciphertext (ciphertext json_data)
        ++ add_string encryption_tree hf_mcp_iv (iv json_data)
        ++ add_string encryption_tree hf_mcp_ratchet_header (ratchet_header json_data)
      else [])
  ++ add_string mcp_tree hf_mcp_params (params json_data)
  ++ add_string mcp_tree hf_mcp_result (result json_data)
  ++ (if error_code json_data =? 0 then []
      else [add_item mcp_tree hf_mcp_error_code on_payload_tvb 0 0
              (Int (error_code json_data))])
  ++ add_string mcp_tree hf_mcp_error_message (error_message json_data)
  ++ add_string mcp_tree hf_mcp_agent_id (agent_id json_data)
  ++ [col_set_protocol "MCP"]
  ++ match method json_data with
     | Some m =>
         col_set_info ("MCP " ++ m)
         :: (if encrypted json_data then [col_append_info " (Encrypted)"] else [])
     | None => []
     end
  ++ (if error_code json_data =? 0 then []
      else [col_append_info (" [ERROR " ++ show_int (error_code json_data) ++ "]")]).

(** The WebSocket subtree: built for every decoded header. *)
Definition ws_events (f : ws_frame) : list event :=
  [ add_subtree tree on_tvb 0 (to_int (u32 (offset f + payload_len f)))
      ett_mcp_ws "MCP WebSocket";
    add_item ws_tree hf_ws_opcode on_tvb 0 1 (Uint (opcode f));
    append_text (if opcode f =? 1 then " (Text)" else " (Binary)");
    add_item ws_tree hf_ws_fin on_tvb 0 1 (Boolean (negb (fin f =? 0)));
    add_item ws_tree hf_ws_payload_length on_tvb 1 (offset f - 1)
      (Uint (payload_len f)) ].

(** jsonrpc is set and compares equal to 2.0. *)
Definition is_version_2_0 (json_data : mcp_json_data_t) : bool :=
  match jsonrpc json_data with
  | Some v => String.eqb v "2.0"
  | None => false
  end.

Definition dissect_mcp_websocket (tvb : tvbuff_t) : dissection :=
  match decode_header tvb with
  | TooShort => mk_dissection [] (Returned 0)
  | Thrown => mk_dissection [] Exception
  | Frame f =>
      let total := u32 (offset f + payload_len f) in
      if (0 <? payload_len f) && (total <=? tvb_captured_length tvb) then
        match tvb_new_subset_length tvb (offset f) (to_int (payload_len f)) with
        | None => mk_dissection (ws_events f) Exception
        | Some payload_tvb =>
            let shown :=
              ws_events f
              ++ [add_item ws_tree hf_ws_payload on_payload_tvb 0 (-1)
                    (Text (ascii_text payload_tvb))] in
            if opcode f =? 1 then
              let payload_str := tvb_get_string_enc payload_tvb in
              match parse_json_rpc payload_str zero_data with
              | (Some _, m) =>
                  let json_data := data m in
                  mk_dissection
                    (shown ++ if is_version_2_0 json_data
                              then mcp_events json_data else [])
                    (Returned (to_int total))
              | (None, _) => mk_dissection shown OutOfBounds
              end
            else mk_dissection shown (Returned (to_int total))
        end
      else mk_dissection (ws_events f) (Returned (to_int total))
  end.

Definition bytes_of_string (s : string) : list byte := list_byte_of_string s.

(** A WebSocket text frame around a payload of fewer than 126 bytes, the
    ones the one-byte length holds: FIN set, opcode 1. *)
Definition text_frame (payload : string) : tvbuff_t :=
  x81 :: match Byte.of_N (N.of_nat (String.length payload)) with
         | Some n => n
         | None => x00
         end :: bytes_of_string payload.

(* ================================================================== *)
(** ** Vocabulary of the statements *)

(** The value a big-endian byte sequence denotes. *)
Definition be_value (bytes : list byte) : Z :=
  fold_left (fun acc b => acc * 256 + byte_value b) bytes 0.

(** What the two first bytes of a header hold. *)
Definition header_fin (b0 : byte) : Z := Z.shiftr (Z.land (byte_value b0) 0x80) 7.
Definition header_opcode (b0 : byte) : Z := Z.land (byte_value b0) 0x0F.
Definition length_code (b1 : byte) : Z := Z.land (byte_value b1) 0x7F.

(** Narrowing a length to 32 bits by saturation. *)
Definition saturate32 (z : Z) : Z := Z.min z (2 ^ 32 - 1).

(** An item that shows a flag raised: a boolean field holding true. *)
Definition is_raised_flag (e : event) : bool :=
  match e with
  | add_item _ _ _ _ _ (Boolean true) => true
  | _ => false
  end.

(** The events that belong to the MCP layer: the MCP and encryption
    subtrees, what is added under them, and every write to the summary
    columns. *)
Definition touches_mcp (e : event) : bool :=
  match e with
  | add_subtree _ _ _ _ ett_mcp _ => true
  | add_subtree _ _ _ _ ett_mcp_encryption _ => true
  | add_subtree _ _ _ _ ett_mcp_ws _ => false
  | add_item mcp_tree _ _ _ _ _ => true
  | add_item encryption_tree _ _ _ _ _ => true
  | add_item _ _ _ _ _ _ => false
  | append_text _ => false
  | col_set_protocol _ => true
  | col_set_info _ => true
  | col_append_info _ => true
  end.

(** The payload of a text frame, when the dissector gets to parse one. *)
Definition text_payload (tvb : tvbuff_t) : option tvbuff_t :=
  match decode_header tvb with
  | Frame f =>
      if (0 <? payload_len f)
         && (u32 (offset f + payload_len f) <=? tvb_captured_length tvb)
         && (opcode f =? 1)
      then tvb_new_subset_length tvb (offset f) (to_int (payload_len f))
      else None
  | _ => None
  end.

(** The record parse_json_rpc leaves for a payload. *)
Definition parsed (payload_tvb : tvbuff_t) : mcp_json_data_t :=
  data (snd (parse_json_rpc (tvb_get_string_enc payload_tvb) zero_data)).

(** The agent identifier extract_agent_id and its caller obtain from a
    params text: the text of the 256-byte array when it is not empty. *)
Definition agent_id_in (params_text : string) : option string :=
  match extract_agent_id (c_string params_text) (zeroed 256) 256 with
  | Some buf =>
      match c_strlen buf, c_text buf with
      | Some len, Some a => if (0 <? len)%nat then Some a else None
      | _, _ => None
      end
  | None => None
  end.

(** [hoare P c Q]: from a record satisfying [P], the record [c] leaves
    satisfies [Q], whether [c] ran to its end or stopped on a fault. *)
Definition hoare (P : mcp_json_data_t -> Prop) {A : Type} (c : run A)
    (Q : mcp_json_data_t -> Prop) : Prop :=
  forall m, P (data m) -> Q (data (snd (c m))).

Definition preserves (I : mcp_json_data_t -> Prop) {A : Type} (c : run A) : Prop :=
  hoare I c I.

(** A command that leaves the record alone. *)
Definition silent {A : Type} (c : run A) : Prop :=
  forall m, data (snd (c m)) = data m.

(** The three encryption fields are unset unless the flag is raised. *)
Definition gated (d : mcp_json_data_t) : Prop :=
  encrypted d = true
  \/ (ciphertext d = None /\ iv d = None /\ ratchet_header d = None).

Definition flagged (d : mcp_json_data_t) : Prop := encrypted d = true.



(** A value of [n] letters for the agent key, inside a params object. *)
Fixpoint letters (n : nat) : string :=
  match n with
  | O => EmptyString
  | S n' => String "a"%char (letters n')
  end.

Definition agent_params (value : string) : string :=
  (json "{'agentId':'" ++ value ++ json "'}")%string.

Definition agent_payload (value : string) : string :=
  (json "{'params':" ++ agent_params value ++ "}")%string.

(** Where the value of a key starts in a block: the pure reading of
    [value_position]. *)
Definition value_offset (key : string) (b : block) : scan nat :=
  match c_strstr key b with
  | Hit k =>
      match c_strchr COLON (drop k b) with
      | Hit c =>
          match skip_blanks (drop (S (k + c)) b) with
          | Some w => Hit (S (k + c) + w)%nat
          | None => Oob
          end
      | Miss => Miss
      | Oob => Oob
      end
  | Miss => Miss
  | Oob => Oob
  end.

(** The first encrypted key of the block is followed, after its colon and
    blanks, by the four bytes of true. *)
Definition true_literal_found (b : block) : bool :=
  match value_offset (quoted "encrypted") b with
  | Hit pos =>
      match starts_with "true" (drop pos b) with
      | Hit _ => true
      | _ => false
      end
  | _ => false
  end.

(** A text a C string can hold: no NUL inside. *)
Fixpoint nul_free (t : string) : bool :=
  match t with
  | EmptyString => true
  | String c r => negb (c =? NUL)%char && nul_free r
  end.

(** A key none of whose bytes is a NUL, a comma or a closing brace. *)
Fixpoint clean (key : string) : bool :=
  match key with
  | EmptyString => true
  | String c r =>
      negb ((c =? NUL) || (c =? COMMA) || (c =? RBRACE))%char && clean r
  end.

(** [patched b0 b]: [b] is [b0] where closing braces may have been written
    over commas, over closing braces, and over the terminator when it is the
    last byte.  This is all the restore of a numeric id can do. *)
Inductive patched : block -> block -> Prop :=
| patched_nil : patched EmptyString EmptyString
| patched_same (x : ascii) (r0 r : block) :
    patched r0 r -> patched (String x r0) (String x r)
| patched_separator (x : ascii) (r0 r : block) :
    x = COMMA \/ x = RBRACE -> patched r0 r ->
    patched (String x r0) (String RBRACE r)
| patched_terminator :
    patched (String NUL EmptyString) (String RBRACE EmptyString).

Definition unflagged (d : mcp_json_data_t) : Prop := encrypted d = false.

(* ================================================================== *)
(** ** Further vocabulary *)

(** The first [n] bytes of a string. *)
Fixpoint take (n : nat) (s : string) : string :=
  match n, s with
  | O, _ => EmptyString
  | S _, EmptyString => EmptyString
  | S n', String c r => String c (take n' r)
  end.

(** Opening braces minus closing braces. *)
Fixpoint depth (s : string) : Z :=
  match s with
  | EmptyString => 0
  | String c r =>
      (if (c =? LBRACE)%char then 1 else if (c =? RBRACE)%char then -1 else 0)
      + depth r
  end.

(** The three tables in the order they are searched. *)
Definition all_descriptions : list mcp_method_t :=
  mcp_methods ++ chess_tools ++ chess_resources.

Fixpoint distinct (names : list string) : bool :=
  match names with
  | [] => true
  | x :: r => negb (existsb (String.eqb x) r) && distinct r
  end.

(** The payload bytes of a frame: [payload_len] bytes from [offset] on. *)
Definition payload_bytes (tvb : tvbuff_t) (f : ws_frame) : list byte :=
  firstn (Z.to_nat (payload_len f)) (skipn (Z.to_nat (offset f)) tvb).

Definition payload_item (payload : list byte) : event :=
  add_item ws_tree hf_ws_payload on_payload_tvb 0 (-1) (Text (ascii_text payload)).

(** *** The extractor read as a function of the text

    A pointer into a C string is a suffix of its text: the functions below
    follow a field's lookup on suffixes, without block, offset or
    terminator. *)

Fixpoint is_prefix (key s : string) : bool :=
  match key, s with
  | EmptyString, _ => true
  | String _ _, EmptyString => false
  | String k key', String c s' => (c =? k)%char && is_prefix key' s'
  end.

(** The suffix that starts at the first occurrence of [key]. *)
Fixpoint find (key s : string) : option string :=
  if is_prefix key s then Some s
  else match s with
       | EmptyString => None
       | String _ r => find key r
       end.

(** The suffix that starts at the first [c]. *)
Fixpoint find_char (c : ascii) (s : string) : option string :=
  match s with
  | EmptyString => None
  | String x r => if (x =? c)%char then Some s else find_char c r
  end.

Fixpoint skip_ws (s : string) : string :=
  match s with
  | EmptyString => EmptyString
  | String x r => if ((x =? SPACE) || (x =? TAB))%char then skip_ws r else s
  end.

(** The bytes before the first [c]; none when [c] does not occur. *)
Fixpoint before (c : ascii) (s : string) : option string :=
  match s with
  | EmptyString => None
  | String x r =>
      if (x =? c)%char then Some EmptyString else option_map (String x) (before c r)
  end.

(** The bytes before the first comma or closing brace, or all of them. *)
Fixpoint numeric_text (s : string) : string :=
  match s with
  | EmptyString => EmptyString
  | String x r =>
      if ((x =? COMMA) || (x =? RBRACE))%char then EmptyString
      else String x (numeric_text r)
  end.

(** The text at the value of a key: after the first occurrence of the key,
    the next colon, and the spaces and tabs that follow it. *)
Definition value_text (key text : string) : option string :=
  match find key text with
  | Some s1 =>
      match find_char COLON s1 with
      | Some (String _ s2) => Some (skip_ws s2)
      | _ => None
      end
  | None => None
  end.

Definition string_field (key text : string) : option string :=
  match value_text key text with
  | Some (String c s) => if (c =? DQUOTE)%char then before DQUOTE s else None
  | _ => None
  end.

Definition id_field (text : string) : option string :=
  match value_text (quoted "id") text with
  | Some (String c s) =>
      if (c =? DQUOTE)%char then before DQUOTE s
      else match numeric_text (String c s) with
           | EmptyString => None
           | v => Some v
           end
  | _ => None
  end.

(** A value a JSON string can carry through the extractor: no double quote
    and no NUL. *)
Fixpoint plain (v : string) : bool :=
  match v with
  | EmptyString => true
  | String c r => negb ((c =? DQUOTE) || (c =? NUL))%char && plain r
  end.

(** The names of the keys the extractor looks for. *)
Definition tracked_names : list string :=
  [ "jsonrpc"; "method"; "id"; "encrypted"; "ciphertext"; "iv";
    "ratchet_header"; "params"; "result"; "code"; "message" ].

Definition not_a_key (v : string) : bool :=
  negb (existsb (String.eqb v) tracked_names).

(** A request as a peer writes it, with string values. *)
Definition request (version method_name request_id : string) : string :=
  (json "{'jsonrpc':'" ++ version ++ json "','method':'" ++ method_name
   ++ json "','id':'" ++ request_id ++ json "'}")%string.

(** The three fields that are extracted first hold these values. *)
Definition leading_fields (j m i : option string) (d : mcp_json_data_t) : Prop :=
  jsonrpc d = j /\ method d = m /\ id d = i.

(** The part of [parse_fields] that follows the id. *)
Definition fields_after_id : run unit :=
  extract_encryption ;;;
  extract_object (quoted "params") set_params agent_id_from_params ;;;
  extract_object (quoted "result") set_result (fun _ => ret tt) ;;;
  extract_error_code ;;;
  extract_string (quoted "message") set_error_message.

(** The text at the value that follows a key found at [s1]. *)
Definition after_key (s1 : string) : option string :=
  match find_char COLON s1 with
  | Some (String _ s2) => Some (skip_ws s2)
  | _ => None
  end.

(** The agent identifier a params text holds: the string at agentId, or at
    agent_id when agentId does not occur, when it has from 1 to 255
    bytes. *)
Definition agent_field (params_text : string) : option string :=
  let key :=
    match find (quoted "agentId") params_text with
    | Some s1 => Some s1
    | None => find (quoted "agent_id") params_text
    end in
  match key with
  | Some s1 =>
      match after_key s1 with
      | Some (String c s) =>
          if (c =? DQUOTE)%char then
            match before DQUOTE s with
            | Some v =>
                if ((0 <? String.length v) && (String.length v <? 256))%nat
                then Some v else None
            | None => None
            end
          else None
      | _ => None
      end
  | None => None
  end.

(* ================================================================== *)
(** ** proto_register_mcp: the registered fields *)

Inductive ftenum : Type := FT_STRING | FT_INT32 | FT_BOOLEAN | FT_UINT8 | FT_UINT32.

Record header_field_info : Type := mk_hfinfo {
  hf_name : string;
  hf_abbrev : string;
  hf_type : ftenum;
  hf_blurb : string
}.

(** The array [hf] of proto_register_mcp. *)
Definition hf_register_info : list (hf * header_field_info) :=
  [ (hf_mcp_version,
     mk_hfinfo "MCP Version" "mcp.version" FT_STRING "Model Context Protocol version");
    (hf_mcp_method,
     mk_hfinfo "Method" "mcp.method" FT_STRING "JSON-RPC method name");
    (hf_mcp_id,
     mk_hfinfo "Request ID" "mcp.id" FT_STRING "JSON-RPC request/response ID");
    (hf_mcp_params,
     mk_hfinfo "Parameters" "mcp.params" FT_STRING "Method parameters");
    (hf_mcp_result,
     mk_hfinfo "Result" "mcp.result" FT_STRING "Method result");
    (hf_mcp_error_code,
     mk_hfinfo "Error Code" "mcp.error_code" FT_INT32 "JSON-RPC error code");
    (hf_mcp_error_message,
     mk_hfinfo "Error Message" "mcp.error_message" FT_STRING "JSON-RPC error message");
    (hf_mcp_agent_id,
     mk_hfinfo "Agent ID" "mcp.agent_id" FT_STRING "MCP agent identifier");
    (hf_mcp_encrypted,
     mk_hfinfo "Encrypted" "mcp.encrypted" FT_BOOLEAN "Message is encrypted");
    (hf_mcp_ciphertext,
     mk_hfinfo "Ciphertext" "mcp.ciphertext" FT_STRING "Encrypted message content");
    (hf_mcp_iv,
     mk_hfinfo "IV" "mcp.iv" FT_STRING "Initialization vector");
    (hf_mcp_ratchet_header,
     mk_hfinfo "Ratchet Header" "mcp.ratchet_header" FT_STRING "Double ratchet header");
    (hf_ws_opcode,
     mk_hfinfo "WebSocket Opcode" "mcp_ws.opcode" FT_UINT8 "WebSocket frame opcode");
    (hf_ws_fin,
     mk_hfinfo "FIN" "mcp_ws.fin" FT_BOOLEAN "WebSocket FIN flag");
    (hf_ws_payload_length,
     mk_hfinfo "Payload Length" "mcp_ws.payload_length" FT_UINT32
       "WebSocket payload length");
    (hf_ws_payload,
     mk_hfinfo "WebSocket Payload" "mcp_ws.payload" FT_STRING "WebSocket frame payload") ].

Definition hf_index (f : hf) : nat :=
  match f with
  | hf_mcp_version => 0 | hf_mcp_method => 1 | hf_mcp_id => 2 | hf_mcp_params => 3
  | hf_mcp_result => 4 | hf_mcp_error_code => 5 | hf_mcp_error_message => 6
  | hf_mcp_agent_id => 7 | hf_mcp_encrypted => 8 | hf_mcp_ciphertext => 9
  | hf_mcp_iv => 10 | hf_mcp_ratchet_header => 11
  | hf_ws_opcode => 12 | hf_ws_fin => 13 | hf_ws_payload_length => 14
  | hf_ws_payload => 15
  end.

(** What proto_register_field_array was given for a field, if anything. *)
Definition registered (f : hf) : option header_field_info :=
  option_map snd
    (List.find (fun entry => (hf_index (fst entry) =? hf_index f)%nat) hf_register_info).

(** The value an accessor hands over is of the field's type and in its
    range: [Uint] is what proto_tree_add_uint passes, [Int] what
    proto_tree_add_int passes, [Boolean] what proto_tree_add_boolean passes,
    [Text] what proto_tree_add_string and the ASCII item pass. *)
Definition fits (t : ftenum) (v : field_value) : bool :=
  match t, v with
  | FT_STRING, Text _ => true
  | FT_BOOLEAN, Boolean _ => true
  | FT_UINT8, Uint z => (0 <=? z) && (z <? 2 ^ 8)
  | FT_UINT32, Uint z => (0 <=? z) && (z <? 2 ^ 32)
  | FT_INT32, Int z => (- 2 ^ 31 <=? z) && (z <? 2 ^ 31)
  | _, _ => false
  end.

Definition well_typed (e : event) : bool :=
  match e with
  | add_item _ field _ _ _ v =>
      match registered field with
      | Some info => fits (hf_type info) v
      | None => false
      end
  | _ => true
  end.

(** The error code fits a 32-bit signed integer. *)
Definition int32_code (d : mcp_json_data_t) : Prop :=
  - 2 ^ 31 <= error_code d < 2 ^ 31.

(** Does the byte [c] occur in [s]? *)
Fixpoint has (c : ascii) (s : string) : bool :=
  match s with
  | EmptyString => false
  | String x r => (x =? c)%char || has c r
  end.

(** A field that is unset, or holds no double quote. *)
Definition unquoted (field : option string) : bool :=
  match field with
  | Some v => negb (has DQUOTE v)
  | None => true
  end.

(** The fields the extractor fills from string values only. *)
Definition strings_unquoted (d : mcp_json_data_t) : Prop :=
  unquoted (jsonrpc d) = true /\ unquoted (method d) = true
  /\ unquoted (ciphertext d) = true /\ unquoted (iv d) = true
  /\ unquoted (error_message d) = true /\ unquoted (agent_id d) = true.

(** A text of bytes below 0x80, the ones ENC_ASCII keeps. *)
Fixpoint seven_bit (s : string) : bool :=
  match s with
  | EmptyString => true
  | String c r => (N_of_ascii c <? 128)%N && seven_bit r
  end.

(** What is shown below the WebSocket subtree for a request of version 2.0
    with string values. *)
Definition request_report (m i : string) : list event :=
  [ add_subtree ws_tree on_payload_tvb 0 (-1) ett_mcp "Model Context Protocol";
    add_item mcp_tree hf_mcp_version on_payload_tvb 0 0 (Text "2.0");
    add_item mcp_tree hf_mcp_method on_payload_tvb 0 0 (Text m) ]
  ++ match get_method_description m with
     | Some method_desc => [append_text (" (" ++ method_desc ++ ")")]
     | None => []
     end
  ++ [ add_item mcp_tree hf_mcp_id on_payload_tvb 0 0 (Text i);
       col_set_protocol "MCP";
       col_set_info ("MCP " ++ m) ].

(** The header length the second byte announces: 2, or 4 with the 16-bit
    length, or 10 with the 64-bit length. *)
Definition header_length (tvb : tvbuff_t) : Z :=
  match nth_error tvb 1 with
  | Some b1 =>
      if length_code b1 =? 126 then 4
      else if length_code b1 =? 127 then 10
      else 2
  | None => 2
  end.

(** *** The encrypted literal, as the scan reads it and as JSON has it *)

(** What the scan of parse_json_rpc takes for the value of encrypted: at the
    first occurrence of the quoted word, wherever it stands, the text after
    the next colon and blanks starts with the four bytes of true. *)
Definition scan_finds_true (text : string) : bool :=
  match value_text (quoted "encrypted") text with
  | Some s => is_prefix "true" s
  | None => false
  end.

(** JSON white space. *)
Fixpoint skip_json_ws (s : string) : string :=
  match s with
  | EmptyString => EmptyString
  | String x r =>
      if ((x =? SPACE) || (x =? TAB) || (x =? "010") || (x =? "013"))%char
      then skip_json_ws r else s
  end.

(** The member that starts at [s] is the key encrypted with the value
    true. *)
Definition is_encrypted_true (s : string) : bool :=
  is_prefix (quoted "encrypted") s
  && match skip_json_ws (drop (String.length (quoted "encrypted")) s) with
     | String c r => (c =? COLON)%char && is_prefix "true" (skip_json_ws r)
     | EmptyString => false
     end.

Inductive lexing : Type := outside | in_string | escaped.

(** Follows the claim's words: the text holds a top-level encrypted member
    whose value is the literal true, that is, a key of the outermost object,
    not one of a nested object and not a string value.  [depth] counts the
    objects and arrays that are open. *)
Fixpoint top_level_member (s : string) (depth : nat) (mode : lexing) : bool :=
  match s with
  | EmptyString => false
  | String c r =>
      match mode with
      | escaped => top_level_member r depth in_string
      | in_string =>
          if (c =? "\")%char then top_level_member r depth escaped
          else if (c =? DQUOTE)%char then top_level_member r depth outside
          else top_level_member r depth in_string
      | outside =>
          if (c =? DQUOTE)%char then
            ((depth =? 1)%nat && is_encrypted_true s)
            || top_level_member r depth in_string
          else if ((c =? LBRACE) || (c =? "["))%char
          then top_level_member r (S depth) outside
          else if ((c =? RBRACE) || (c =? "]"))%char
          then top_level_member r (Nat.pred depth) outside
          else top_level_member r depth outside
      end
  end.

Definition top_level_encrypted_true (text : string) : bool :=
  top_level_member text 0 outside.

(* ================================================================== *)
(** ** The frame header *)

Lemma byte_value_range (b : byte) : 0 <= byte_value b < 256.
Proof.
  unfold byte_value. pose proof (Byte.to_N_bounded b). lia.
Qed.

Lemma lor_shiftl_byte (acc b : Z) :
  0 <= b < 256 -> Z.lor (Z.shiftl acc 8) b = acc * 256 + b.
Proof.
  intros Hb.
  assert (Hland : Z.land (Z.shiftl acc 8) b = 0).
  { apply Z.bits_inj'. intros n Hn.
    rewrite Z.land_spec, Z.bits_0.
    destruct (Z.ltb_spec n 8) as [Hlt | Hge].
    - rewrite Z.shiftl_spec_low by lia. reflexivity.
    - assert (Hnb : Z.testbit b n = false).
      { destruct (Z.eq_dec b 0) as [-> | Hnz]; [apply Z.bits_0 |].
        apply Z.bits_above_log2; [lia |].
        apply Z.log2_lt_pow2; [lia |].
        apply Z.lt_le_trans with (2 ^ 8); [lia |].
        apply Z.pow_le_mono_r; lia. }
      rewrite Hnb. apply andb_false_r. }
  rewrite <- Z.lxor_lor by exact Hland.
  rewrite <- Z.add_nocarry_lxor by exact Hland.
  rewrite Z.shiftl_mul_pow2 by lia. reflexivity.
Qed.

Lemma tvb_get_guint8_cons (b : byte) (tvb : tvbuff_t) (offset : Z) :
  0 <= offset -> tvb_get_guint8 (b :: tvb) (offset + 1) = tvb_get_guint8 tvb offset.
Proof.
  intros H. unfold tvb_get_guint8.
  destruct (Z.ltb_spec (offset + 1) 0); [lia |].
  destruct (Z.ltb_spec offset 0); [lia |].
  replace (Z.to_nat (offset + 1)) with (S (Z.to_nat offset)) by lia.
  reflexivity.
Qed.

Lemma tvb_get_ntoh_cons (n : nat) (b : byte) (tvb : tvbuff_t) (offset acc : Z) :
  0 <= offset ->
  tvb_get_ntoh n (b :: tvb) (offset + 1) acc = tvb_get_ntoh n tvb offset acc.
Proof.
  revert offset acc. induction n as [| n IH]; intros offset acc H; [reflexivity |].
  simpl. rewrite tvb_get_guint8_cons by exact H.
  destruct (tvb_get_guint8 tvb offset); [| reflexivity].
  apply IH. lia.
Qed.

(** Reading [n] bytes that are there yields their big-endian value. *)
Lemma tvb_get_ntoh_value (bytes rest : list byte) (acc : Z) :
  tvb_get_ntoh (List.length bytes) (bytes ++ rest) 0 acc
  = Some (fold_left (fun a b => a * 256 + byte_value b) bytes acc).
Proof.
  revert acc. induction bytes as [| b bytes IH]; intros acc; [reflexivity |].
  simpl List.length. simpl app.
  change (tvb_get_ntoh (S (List.length bytes)) (b :: bytes ++ rest) 0 acc)
    with (tvb_get_ntoh (List.length bytes) (b :: bytes ++ rest) (0 + 1)
            (Z.lor (Z.shiftl acc 8) (byte_value b))).
  rewrite tvb_get_ntoh_cons by lia.
  rewrite lor_shiftl_byte by apply byte_value_range.
  apply IH.
Qed.

Lemma length_code_range (b1 : byte) : 0 <= length_code b1 <= 127.
Proof.
  unfold length_code. pose proof (byte_value_range b1) as Hb. split.
  - apply Z.land_nonneg. right. lia.
  - assert (H : Z.land (byte_value b1) 127 = byte_value b1 mod 2 ^ 7)
      by (apply (Z.land_ones (byte_value b1) 7); lia).
    rewrite H. pose proof (Z.mod_pos_bound (byte_value b1) (2 ^ 7)). lia.
Qed.

(** The decoding of a buffer with its two first bytes, before the length
    code is looked at. *)
Lemma decode_header_two_bytes (b0 b1 : byte) (rest : list byte) :
  decode_header (b0 :: b1 :: rest) =
    let tvb := b0 :: b1 :: rest in
    if length_code b1 =? 126 then
      if tvb_captured_length tvb <? 4 then TooShort
      else match tvb_get_ntohs tvb 2 with
           | Some v => Frame (mk_frame (header_fin b0) (header_opcode b0) 4 v)
           | None => Thrown
           end
    else if length_code b1 =? 127 then
      if tvb_captured_length tvb <? 10 then TooShort
      else match tvb_get_ntoh64 tvb 2 with
           | Some v => Frame (mk_frame (header_fin b0) (header_opcode b0) 10 (u32 v))
           | None => Thrown
           end
    else Frame (mk_frame (header_fin b0) (header_opcode b0) 2 (length_code b1)).
Proof.
  unfold decode_header, tvb_captured_length.
  destruct (Z.ltb_spec (Z.of_nat (List.length (b0 :: b1 :: rest))) 2) as [H | _];
    [simpl List.length in H; lia |].
  reflexivity.
Qed.

Lemma decode_header_short (tvb : tvbuff_t) :
  tvb_captured_length tvb < 2 -> decode_header tvb = TooShort.
Proof.
  intros H. unfold decode_header.
  destruct (Z.ltb_spec (tvb_captured_length tvb) 2); [reflexivity | lia].
Qed.

Lemma decode_header_small (b0 b1 : byte) (rest : list byte) :
  length_code b1 <= 125 ->
  decode_header (b0 :: b1 :: rest)
  = Frame (mk_frame (header_fin b0) (header_opcode b0) 2 (length_code b1)).
Proof.
  intros H. rewrite decode_header_two_bytes. cbv zeta.
  destruct (Z.eqb_spec (length_code b1) 126); [lia |].
  destruct (Z.eqb_spec (length_code b1) 127); [lia |].
  reflexivity.
Qed.

Lemma tvb_get_ntohs_at_2 (b0 b1 l0 l1 : byte) (rest : list byte) :
  tvb_get_ntohs (b0 :: b1 :: l0 :: l1 :: rest) 2 = Some (be_value [l0; l1]).
Proof.
  unfold tvb_get_ntohs. change 2 with (0 + 1 + 1) at 1.
  rewrite !tvb_get_ntoh_cons by lia.
  exact (tvb_get_ntoh_value [l0; l1] rest 0).
Qed.

Lemma tvb_get_ntoh64_at_2 (b0 b1 l0 l1 l2 l3 l4 l5 l6 l7 : byte) (rest : list byte) :
  tvb_get_ntoh64 (b0 :: b1 :: l0 :: l1 :: l2 :: l3 :: l4 :: l5 :: l6 :: l7 :: rest) 2
  = Some (be_value [l0; l1; l2; l3; l4; l5; l6; l7]).
Proof.
  unfold tvb_get_ntoh64. change 2 with (0 + 1 + 1) at 1.
  rewrite !tvb_get_ntoh_cons by lia.
  exact (tvb_get_ntoh_value [l0; l1; l2; l3; l4; l5; l6; l7] rest 0).
Qed.

Lemma decode_header_126 (b0 b1 l0 l1 : byte) (rest : list byte) :
  length_code b1 = 126 ->
  decode_header (b0 :: b1 :: l0 :: l1 :: rest)
  = Frame (mk_frame (header_fin b0) (header_opcode b0) 4 (be_value [l0; l1])).
Proof.
  intros H. rewrite decode_header_two_bytes. cbv zeta. rewrite H.
  change (126 =? 126) with true. cbv iota.
  unfold tvb_captured_length.
  destruct (Z.ltb_spec (Z.of_nat (List.length (b0 :: b1 :: l0 :: l1 :: rest))) 4) as [Hl | _];
    [simpl List.length in Hl; lia |].
  rewrite tvb_get_ntohs_at_2. reflexivity.
Qed.

Lemma decode_header_127 (b0 b1 l0 l1 l2 l3 l4 l5 l6 l7 : byte) (rest : list byte) :
  length_code b1 = 127 ->
  decode_header (b0 :: b1 :: l0 :: l1 :: l2 :: l3 :: l4 :: l5 :: l6 :: l7 :: rest)
  = Frame (mk_frame (header_fin b0) (header_opcode b0) 10
             (u32 (be_value [l0; l1; l2; l3; l4; l5; l6; l7]))).
Proof.
  intros H. rewrite decode_header_two_bytes. cbv zeta. rewrite H.
  change (127 =? 126) with false. change (127 =? 127) with true. cbv iota.
  unfold tvb_captured_length.
  match goal with |- context [Z.ltb ?a 10] =>
    destruct (Z.ltb_spec a 10) as [Hl | _]; [simpl List.length in Hl; lia |] end.
  rewrite tvb_get_ntoh64_at_2. reflexivity.
Qed.

Lemma decode_header_126_short (tvb : tvbuff_t) (b1 : byte) :
  nth_error tvb 1 = Some b1 -> length_code b1 = 126 ->
  tvb_captured_length tvb < 4 -> decode_header tvb = TooShort.
Proof.
  intros Hb H Hlen.
  destruct tvb as [| b0 [| b1' rest]]; try discriminate.
  simpl in Hb. injection Hb as ->.
  rewrite decode_header_two_bytes. cbv zeta. rewrite H.
  change (126 =? 126) with true. cbv iota.
  destruct (Z.ltb_spec (tvb_captured_length (b0 :: b1 :: rest)) 4); [reflexivity | lia].
Qed.

Lemma decode_header_127_short (tvb : tvbuff_t) (b1 : byte) :
  nth_error tvb 1 = Some b1 -> length_code b1 = 127 ->
  tvb_captured_length tvb < 10 -> decode_header tvb = TooShort.
Proof.
  intros Hb H Hlen.
  destruct tvb as [| b0 [| b1' rest]]; try discriminate.
  simpl in Hb. injection Hb as ->.
  rewrite decode_header_two_bytes. cbv zeta. rewrite H.
  change (127 =? 126) with false. change (127 =? 127) with true. cbv iota.
  destruct (Z.ltb_spec (tvb_captured_length (b0 :: b1 :: rest)) 10); [reflexivity | lia].
Qed.

(** The accessors the header decoding calls never throw: every read is
    guarded by the captured length. *)
Lemma decode_header_never_throws (tvb : tvbuff_t) : decode_header tvb <> Thrown.
Proof.
  destruct tvb as [| b0 [| b1 rest]];
    try (rewrite decode_header_short by (unfold tvb_captured_length; simpl; lia);
         discriminate).
  destruct (Z.eq_dec (length_code b1) 126) as [H126 | N126].
  - destruct rest as [| l0 [| l1 rest]].
    + rewrite (decode_header_126_short _ b1)
        by (try reflexivity; try assumption; unfold tvb_captured_length; simpl; lia).
      discriminate.
    + rewrite (decode_header_126_short _ b1)
        by (try reflexivity; try assumption; unfold tvb_captured_length; simpl; lia).
      discriminate.
    + rewrite decode_header_126 by exact H126. discriminate.
  - destruct (Z.eq_dec (length_code b1) 127) as [H127 | N127].
    + destruct (Z_lt_le_dec (tvb_captured_length (b0 :: b1 :: rest)) 10) as [Hs | Hl].
      * rewrite (decode_header_127_short _ b1) by (try reflexivity; assumption).
        discriminate.
      * destruct rest as [| l0 [| l1 [| l2 [| l3 [| l4 [| l5 [| l6 [| l7 rest]]]]]]]];
          unfold tvb_captured_length in Hl; simpl List.length in Hl; try lia.
        rewrite decode_header_127 by exact H127. discriminate.
    + pose proof (length_code_range b1).
      rewrite decode_header_small by lia. discriminate.
Qed.

(** C5: a buffer shorter than two bytes is too short; a header whose 7-bit
    length code L is at most 125 decodes with a header of 2 bytes and a
    payload length of L; a header with L = 126 followed by the bytes
    0x01 0x00 decodes with a payload length of 256 and a header of 4
    bytes. *)
Theorem C5_decode_header_lengths :
  (forall tvb, tvb_captured_length tvb < 2 -> decode_header tvb = TooShort) /\
  (forall b0 b1 rest, length_code b1 <= 125 ->
     exists f, decode_header (b0 :: b1 :: rest) = Frame f
               /\ offset f = 2 /\ payload_len f = length_code b1) /\
  (forall b0 b1 rest, length_code b1 = 126 ->
     exists f, decode_header (b0 :: b1 :: x01 :: x00 :: rest) = Frame f
               /\ payload_len f = 256 /\ offset f = 4).
Proof.
  split; [exact decode_header_short | split].
  - intros b0 b1 rest H. eexists. split; [apply decode_header_small; exact H |].
    split; reflexivity.
  - intros b0 b1 rest H. eexists. split; [apply decode_header_126; exact H |].
    split; reflexivity.
Qed.

Lemma C5_decode_header_lengths_witness :
  decode_header [x81] = TooShort /\
  (exists f, decode_header [x81; x05; x61] = Frame f
             /\ offset f = 2 /\ payload_len f = length_code x05) /\
  (exists f, decode_header [x81; xfe; x01; x00] = Frame f
             /\ payload_len f = 256 /\ offset f = 4).
Proof.
  destruct C5_decode_header_lengths as (Hshort & Hsmall & H126).
  split; [apply Hshort; reflexivity | split].
  - apply (Hsmall x81 x05 [x61]). discriminate.
  - apply (H126 x81 xfe []). reflexivity.
Defined.

(** C6, as the code has it: with a length code of 127 and ten bytes or more,
    the payload length is the big-endian value of the eight bytes that
    follow reduced modulo 2^32, the low 32 bits the cast keeps; with fewer
    than ten bytes the header is too short. *)
Theorem C6_long_length_keeps_low_32_bits :
  (forall b0 b1 l0 l1 l2 l3 l4 l5 l6 l7 rest, length_code b1 = 127 ->
     decode_header (b0 :: b1 :: l0 :: l1 :: l2 :: l3 :: l4 :: l5 :: l6 :: l7 :: rest)
     = Frame (mk_frame (header_fin b0) (header_opcode b0) 10
                (be_value [l0; l1; l2; l3; l4; l5; l6; l7] mod 2 ^ 32))) /\
  (forall tvb b1, nth_error tvb 1 = Some b1 -> length_code b1 = 127 ->
     tvb_captured_length tvb < 10 -> decode_header tvb = TooShort).
Proof.
  split.
  - intros. apply decode_header_127. assumption.
  - exact decode_header_127_short.
Qed.

Lemma C6_long_length_keeps_low_32_bits_witness :
  decode_header [x82; x7f; x00; x00; x00; x00; x00; x00; x01; x2c; x61]
  = Frame (mk_frame (header_fin x82) (header_opcode x82) 10
             (be_value [x00; x00; x00; x00; x00; x00; x01; x2c] mod 2 ^ 32))
  /\ decode_header [x82; x7f; x00; x00; x00] = TooShort.
Proof.
  destruct C6_long_length_keeps_low_32_bits as (Hlong & Hshort).
  split.
  - apply (Hlong x82 x7f x00 x00 x00 x00 x00 x00 x01 x2c [x61]). reflexivity.
  - apply (Hshort [x82; x7f; x00; x00; x00] x7f); reflexivity.
Defined.

(** C6, as stated, fails on a declared length of 2^32 + 5: the header
    decodes, and the payload length is 5, not the saturated 2^32 - 1. *)
Lemma C6_declared_length_wraps :
  tvb_get_ntoh64 [x81; x7f; x00; x00; x00; x01; x00; x00; x00; x05] 2 = Some (2 ^ 32 + 5)
  /\ decode_header [x81; x7f; x00; x00; x00; x01; x00; x00; x00; x05]
     = Frame (mk_frame 1 1 10 5)
  /\ saturate32 (2 ^ 32 + 5) = 2 ^ 32 - 1
  /\ 5 <> saturate32 (2 ^ 32 + 5).
Proof.
  repeat split; try reflexivity. vm_compute. discriminate.
Qed.

(** C1, as the code has it: when the header decodes and the payload it
    declares ends past the captured bytes (the sum staying below 2^32), the
    dissection does not fail; it reports the WebSocket subtree with opcode,
    FIN and payload length and nothing else, no payload item and no MCP
    event.  What it returns is header length plus declared length as the
    int of the return type: the sum itself when it is below 2^31, a value
    larger than the captured length, and the sum minus 2^32, a negative
    value, from 2^31 on.  No marker is part of the report. *)
Theorem C1_truncated_payload_reports_header (tvb : tvbuff_t) (f : ws_frame) :
  decode_header tvb = Frame f ->
  tvb_captured_length tvb < offset f + payload_len f ->
  offset f + payload_len f < 2 ^ 32 ->
  dissect_mcp_websocket tvb
  = mk_dissection (ws_events f) (Returned (to_int (offset f + payload_len f)))
  /\ (offset f + payload_len f < 2 ^ 31 ->
      to_int (offset f + payload_len f) = offset f + payload_len f
      /\ tvb_captured_length tvb < to_int (offset f + payload_len f))
  /\ (2 ^ 31 <= offset f + payload_len f ->
      to_int (offset f + payload_len f) = offset f + payload_len f - 2 ^ 32
      /\ to_int (offset f + payload_len f) < 0).
Proof.
  intros Hdec Htrunc Hfit.
  assert (Hlen : 0 <= tvb_captured_length tvb) by (unfold tvb_captured_length; lia).
  split; [| split].
  - unfold dissect_mcp_websocket. rewrite Hdec. cbv zeta.
    unfold u32. rewrite Z.mod_small by lia.
    destruct (Z.leb_spec (offset f + payload_len f) (tvb_captured_length tvb)); [lia |].
    rewrite andb_false_r. reflexivity.
  - intros Hsmall. unfold to_int. rewrite Z.mod_small by lia. lia.
  - intros Hlarge. unfold to_int.
    replace (offset f + payload_len f + 2 ^ 31)
      with (offset f + payload_len f - 2 ^ 31 + 1 * 2 ^ 32) by lia.
    rewrite Z.mod_add by lia. rewrite Z.mod_small by lia. lia.
Qed.

Lemma C1_truncated_payload_reports_header_witness :
  dissect_mcp_websocket [x01; x05; x61]
  = mk_dissection (ws_events (mk_frame 0 1 2 5)) (Returned (to_int (2 + 5)))
  /\ to_int (2 + 5) = 2 + 5
  /\ tvb_captured_length [x01; x05; x61] < to_int (2 + 5).
Proof.
  destruct (C1_truncated_payload_reports_header [x01; x05; x61] (mk_frame 0 1 2 5))
    as (Hreport & Hsmall & _); try reflexivity.
  split; [exact Hreport | apply Hsmall; reflexivity].
Defined.

(** A declared length of 2^31 behind a ten-byte header: the function
    returns a negative value. *)
Example truncated_frame_returns_negative :
  dissect_mcp_websocket [x81; x7f; x00; x00; x00; x00; x80; x00; x00; x00]
  = mk_dissection (ws_events (mk_frame 1 1 10 (2 ^ 31))) (Returned (-2147483638)).
Proof. vm_compute. reflexivity. Qed.

(** C1, as stated, fails on a three-byte buffer that declares five payload
    bytes and holds one: the frame record has no truncated field, and the
    report holds the four header items only, no boolean of which is true. *)
Lemma C1_no_truncated_marker :
  decode_header [x01; x05; x61] = Frame (mk_frame 0 1 2 5)
  /\ tvb_captured_length [x01; x05; x61] < 2 + 5
  /\ events (dissect_mcp_websocket [x01; x05; x61])
     = [ add_subtree tree on_tvb 0 7 ett_mcp_ws "MCP WebSocket";
         add_item ws_tree hf_ws_opcode on_tvb 0 1 (Uint 1);
         append_text " (Text)";
         add_item ws_tree hf_ws_fin on_tvb 0 1 (Boolean false);
         add_item ws_tree hf_ws_payload_length on_tvb 1 1 (Uint 5) ]
  /\ existsb is_raised_flag (events (dissect_mcp_websocket [x01; x05; x61])) = false.
Proof.
  repeat split; reflexivity.
Qed.

(* ================================================================== *)
(** ** What a command does to the record *)

Create HintDb silent.

Lemma silent_ret {A : Type} (a : A) : silent (ret a).
Proof. intros m. reflexivity. Qed.

Lemma silent_fault {A : Type} : silent (@fault A).
Proof. intros m. reflexivity. Qed.

Lemma silent_of_option {A : Type} (o : option A) : silent (of_option o).
Proof. destruct o; intros m; reflexivity. Qed.

Lemma silent_of_scan (base : nat) (r : scan nat) : silent (of_scan base r).
Proof. destruct r; intros m; reflexivity. Qed.

Lemma silent_reading {A : Type} (k : block -> run A) :
  (forall b, silent (k b)) -> silent (reading k).
Proof. intros H m. apply H. Qed.

Lemma silent_store (p : nat) (c : ascii) : silent (store p c).
Proof. intros m. unfold store. destruct (poke (json_copy m) p c); reflexivity. Qed.

Lemma silent_bind {A B : Type} (c : run A) (k : A -> run B) :
  silent c -> (forall a, silent (k a)) -> silent (bind c k).
Proof.
  intros Hc Hk m. unfold bind. specialize (Hc m).
  destruct (c m) as [[a |] m']; simpl in Hc.
  - rewrite Hk. exact Hc.
  - exact Hc.
Qed.

#[local] Hint Resolve silent_ret silent_fault silent_of_option silent_of_scan
  silent_store : silent.

Lemma silent_load (p : nat) : silent (load p).
Proof. apply silent_reading. auto with silent. Qed.

Lemma silent_strstr (p : nat) (needle : string) : silent (strstr p needle).
Proof. apply silent_reading. auto with silent. Qed.

Lemma silent_strchr (p : nat) (c : ascii) : silent (strchr p c).
Proof. apply silent_reading. auto with silent. Qed.

Lemma silent_skip_whitespace (p : nat) : silent (skip_whitespace p).
Proof. apply silent_reading. auto with silent. Qed.

Lemma silent_wmem_strdup (p : nat) : silent (wmem_strdup p).
Proof. apply silent_reading. auto with silent. Qed.

Lemma silent_strncmp_true (p : nat) : silent (strncmp_true p).
Proof.
  apply silent_reading. intros b. destruct (starts_with "true" (drop p b)); auto with silent.
Qed.

Lemma silent_numeric_end (p : nat) : silent (numeric_end p).
Proof. apply silent_reading. auto with silent. Qed.

Lemma silent_matching_brace_end (p : nat) : silent (matching_brace_end p).
Proof. apply silent_reading. auto with silent. Qed.

Lemma silent_strtol (p : nat) : silent (strtol p).
Proof. apply silent_reading. auto with silent. Qed.

#[local] Hint Resolve silent_load silent_strstr silent_strchr silent_skip_whitespace
  silent_wmem_strdup silent_strncmp_true silent_numeric_end
  silent_matching_brace_end silent_strtol : silent.

Lemma silent_value_position (key : string) : silent (value_position key).
Proof.
  unfold value_position.
  apply silent_bind; [auto with silent |]. intros [pos |]; [| auto with silent].
  apply silent_bind; [auto with silent |]. intros [pos' |]; [| auto with silent].
  apply silent_bind; auto with silent.
Qed.

#[local] Hint Resolve silent_value_position : silent.

Lemma hoare_silent (P Q : mcp_json_data_t -> Prop) {A : Type} (c : run A) :
  silent c -> (forall d, P d -> Q d) -> hoare P c Q.
Proof. intros Hs Himp m Hm. rewrite Hs. auto. Qed.

Lemma hoare_bind (P R Q : mcp_json_data_t -> Prop) {A B : Type}
    (c : run A) (k : A -> run B) :
  hoare P c R -> (forall d, R d -> Q d) -> (forall a, hoare R (k a) Q) ->
  hoare P (bind c k) Q.
Proof.
  intros Hc Himp Hk m Hm. unfold bind. specialize (Hc m Hm).
  destruct (c m) as [[a |] m']; simpl in Hc.
  - apply Hk. exact Hc.
  - apply Himp. exact Hc.
Qed.

Lemma hoare_assign (P Q : mcp_json_data_t -> Prop)
    (f : mcp_json_data_t -> mcp_json_data_t) :
  (forall d, P d -> Q (f d)) -> hoare P (assign f) Q.
Proof. intros H m Hm. apply H. exact Hm. Qed.

Lemma hoare_weaken (P P' Q Q' : mcp_json_data_t -> Prop) {A : Type} (c : run A) :
  (forall d, P' d -> P d) -> hoare P c Q -> (forall d, Q d -> Q' d) -> hoare P' c Q'.
Proof. intros Hp Hc Hq m Hm. apply Hq, Hc, Hp, Hm. Qed.

Lemma preserves_silent (I : mcp_json_data_t -> Prop) {A : Type} (c : run A) :
  silent c -> preserves I c.
Proof. intros Hs. apply hoare_silent; auto. Qed.

Lemma preserves_bind (I : mcp_json_data_t -> Prop) {A B : Type}
    (c : run A) (k : A -> run B) :
  preserves I c -> (forall a, preserves I (k a)) -> preserves I (bind c k).
Proof. intros Hc Hk. apply hoare_bind with (R := I); auto. Qed.

Lemma preserves_assign (I : mcp_json_data_t -> Prop)
    (f : mcp_json_data_t -> mcp_json_data_t) :
  (forall d, I d -> I (f d)) -> preserves I (assign f).
Proof. apply hoare_assign. Qed.

Lemma preserves_when_found (I : mcp_json_data_t -> Prop) {A : Type}
    (p : option A) (k : A -> run unit) :
  (forall a, preserves I (k a)) -> preserves I (when_found p k).
Proof.
  intros H. destruct p; simpl; [apply H |]. apply preserves_silent, silent_ret.
Qed.

(** Walks a command down to its assignments. *)
Ltac frame :=
  cbv zeta;
  repeat match goal with
    | |- preserves _ (bind _ _) => apply preserves_bind; [| intro]
    | |- preserves _ (when_found _ _) => apply preserves_when_found; intro
    | |- preserves _ (if ?b then _ else _) => destruct b
    | |- preserves _ (assign _) => apply preserves_assign; solve [auto]
    | |- preserves _ _ => solve [apply preserves_silent; auto with silent]
    end.

Section Frames.

Variable I : mcp_json_data_t -> Prop.

Lemma preserves_quoted_value pos set :
  (forall v d, I d -> I (set v d)) -> preserves I (quoted_value pos set).
Proof. intros Hset. unfold quoted_value. frame. Qed.

Lemma preserves_extract_string key set :
  (forall v d, I d -> I (set v d)) -> preserves I (extract_string key set).
Proof.
  intros Hset. unfold extract_string. frame.
  apply preserves_quoted_value. exact Hset.
Qed.

Lemma preserves_extract_id :
  (forall v d, I d -> I (set_id v d)) -> preserves I extract_id.
Proof.
  intros Hset. unfold extract_id. frame.
  apply preserves_quoted_value. exact Hset.
Qed.

Lemma preserves_extract_object key set after :
  (forall v d, I d -> I (set v d)) -> (forall v, preserves I (after v)) ->
  preserves I (extract_object key set after).
Proof. intros Hset Hafter. unfold extract_object. frame. apply Hafter. Qed.

Lemma preserves_extract_error_code :
  (forall v d, I d -> I (set_error_code v d)) -> preserves I extract_error_code.
Proof. intros Hset. unfold extract_error_code. frame. Qed.

Lemma preserves_agent_id_from_params v :
  (forall a d, I d -> I (set_agent_id a d)) -> preserves I (agent_id_from_params v).
Proof. intros Hset. unfold agent_id_from_params. frame. Qed.

End Frames.

(* ================================================================== *)
(** ** The encryption fields *)

Lemma preserves_gated_extract_encryption : preserves gated extract_encryption.
Proof.
  unfold extract_encryption.
  apply preserves_bind; [frame | intros pos].
  apply preserves_when_found. intros p.
  apply preserves_bind; [frame | intros [|]]; [| frame].
  apply hoare_bind with (R := flagged).
  - apply hoare_assign. intros d _. reflexivity.
  - intros d Hd. left. exact Hd.
  - intros _.
    apply hoare_weaken with (P := flagged) (Q := flagged);
      [auto | | intros d Hd; left; exact Hd].
    apply preserves_bind;
      [apply preserves_extract_string; intros v d Hd; exact Hd | intros _].
    apply preserves_bind;
      [apply preserves_extract_string; intros v d Hd; exact Hd | intros _].
    apply preserves_extract_object; [intros v d Hd; exact Hd | intros v; frame].
Qed.

Lemma preserves_gated_parse_fields : preserves gated parse_fields.
Proof.
  unfold parse_fields.
  repeat (apply preserves_bind; [| intros _]).
  - apply preserves_extract_string. intros v d H. exact H.
  - apply preserves_extract_string. intros v d H. exact H.
  - apply preserves_extract_id. intros v d H. exact H.
  - apply preserves_gated_extract_encryption.
  - apply preserves_extract_object; [intros v d H; exact H | intros v].
    apply preserves_agent_id_from_params. intros a d H. exact H.
  - apply preserves_extract_object; [intros v d H; exact H | intros v; frame].
  - apply preserves_extract_error_code. intros v d H. exact H.
  - apply preserves_extract_string. intros v d H. exact H.
Qed.

(** An invariant of [parse_fields] that holds of the zeroed record holds of
    what the extractor leaves. *)
Lemma extract_invariant (I : mcp_json_data_t -> Prop) (text : string) :
  preserves I parse_fields -> I zero_data -> I (extract text).
Proof.
  intros Hp H0. unfold extract, parse_json_rpc.
  destruct (c_text (c_string text)) as [t |].
  - apply Hp. exact H0.
  - exact H0.
Qed.

Lemma extract_gated (text : string) : gated (extract text).
Proof.
  apply extract_invariant; [exact preserves_gated_parse_fields |].
  right. repeat split; reflexivity.
Qed.

(** *** The flag and the text *)

Lemma patched_refl (b : block) : patched b b.
Proof. induction b; constructor; assumption. Qed.

Lemma drop_empty (k : nat) : drop k EmptyString = EmptyString.
Proof. destruct k; reflexivity. Qed.

Lemma patched_drop (k : nat) (b0 b : block) :
  patched b0 b -> patched (drop k b0) (drop k b).
Proof.
  intros H. revert k.
  induction H as [| x r0 r H IH | x r0 r Hx H IH |]; intros k.
  - rewrite drop_empty. constructor.
  - destruct k; simpl; [constructor; exact H | apply IH].
  - destruct k; simpl; [constructor; assumption | apply IH].
  - destruct k; simpl; [apply patched_terminator | rewrite drop_empty; constructor].
Qed.

Lemma clean_cons (k : ascii) (ks : string) :
  clean (String k ks) = true ->
  (NUL =? k)%char = false /\ (COMMA =? k)%char = false
  /\ (RBRACE =? k)%char = false /\ clean ks = true.
Proof.
  intros H. cbn [clean] in H. apply andb_true_iff in H as [Hk Hks].
  apply negb_true_iff in Hk. apply orb_false_iff in Hk as [Hk Hr].
  apply orb_false_iff in Hk as [Hn Hc].
  rewrite (Ascii.eqb_sym NUL k), (Ascii.eqb_sym COMMA k), (Ascii.eqb_sym RBRACE k).
  auto.
Qed.

(** A clean key starts a block exactly when it starts the patched block. *)
Lemma starts_with_patched (key : string) (b0 b : block) :
  clean key = true -> patched b0 b ->
  (starts_with key b0 = Hit tt <-> starts_with key b = Hit tt).
Proof.
  revert b0 b. induction key as [| k ks IH]; intros b0 b Hclean Hp; [simpl; tauto |].
  apply clean_cons in Hclean as (Hn & Hc & Hr & Hks).
  destruct Hp as [| x r0 r Hp | x r0 r Hx Hp |]; cbn [starts_with].
  - tauto.
  - destruct (x =? k)%char; [apply IH; assumption | tauto].
  - rewrite Hr. destruct Hx as [-> | ->]; [rewrite Hc | rewrite Hr];
      split; discriminate.
  - rewrite Hn, Hr. tauto.
Qed.

Lemma starts_with_Oob_length (key h : string) :
  starts_with key h = Oob -> (String.length h < String.length key)%nat.
Proof.
  revert h. induction key as [| k ks IH]; intros h H; [discriminate |].
  destruct h as [| c h]; simpl in *; [lia |].
  destruct (c =? k)%char; [| discriminate]. apply IH in H. lia.
Qed.

Lemma starts_with_Hit_length (key h : string) (u : unit) :
  starts_with key h = Hit u -> (String.length key <= String.length h)%nat.
Proof.
  revert h. induction key as [| k ks IH]; intros h H; simpl; [lia |].
  destruct h as [| c h]; simpl in *; [discriminate |].
  destruct (c =? k)%char; [| discriminate]. apply IH in H. lia.
Qed.

Lemma c_strstr_Hit_length (key h : string) (k : nat) :
  c_strstr key h = Hit k -> (String.length key <= String.length h)%nat.
Proof.
  revert k. induction h as [| c h IH]; intros k H.
  - simpl in H. destruct (starts_with key EmptyString) as [u | |] eqn:Hs;
      try discriminate.
    apply starts_with_Hit_length in Hs. exact Hs.
  - simpl in H. destruct (starts_with key (String c h)) as [u | |] eqn:Hs;
      try discriminate.
    + apply starts_with_Hit_length in Hs. exact Hs.
    + destruct (c =? NUL)%char; [discriminate |].
      destruct (c_strstr key h) as [k' | |]; try discriminate.
      specialize (IH k' eq_refl). simpl. lia.
Qed.

(** An occurrence of a clean key found in the patched block is where it is
    in the block itself. *)
Lemma c_strstr_patched (key : string) (b0 b : block) (k : nat) :
  clean key = true -> patched b0 b ->
  c_strstr key b = Hit k -> c_strstr key b0 = Hit k.
Proof.
  intros Hclean Hp. revert k.
  assert (Hstep : forall x0 x r0 r k,
             patched (String x0 r0) (String x r) ->
             (x =? NUL)%char = false -> (x0 =? NUL)%char = false \/ r0 = EmptyString ->
             (forall k', c_strstr key r = Hit k' -> c_strstr key r0 = Hit k') ->
             c_strstr key (String x r) = Hit k -> c_strstr key (String x0 r0) = Hit k).
  { intros x0 x r0 r k Hpat Hx Hx0 IH H.
    pose proof (starts_with_patched key _ _ Hclean Hpat) as [Hto Hfrom].
    cbn [c_strstr] in H |- *.
    destruct (starts_with key (String x r)) as [u | |] eqn:Hs; try discriminate.
    - destruct u. rewrite (Hfrom eq_refl). exact H.
    - rewrite Hx in H.
      destruct (c_strstr key r) as [k' | |] eqn:Hr; try discriminate.
      specialize (IH k' eq_refl).
      destruct (starts_with key (String x0 r0)) as [u | |] eqn:Hs0.
      + destruct u. specialize (Hto eq_refl). discriminate.
      + destruct Hx0 as [Hx0 | ->].
        * rewrite Hx0, IH. exact H.
        * apply c_strstr_Hit_length in IH.
          destruct key; [discriminate Hs | simpl in IH; lia].
      + apply starts_with_Oob_length in Hs0. apply c_strstr_Hit_length in IH.
        simpl in Hs0. lia. }
  induction Hp as [| x r0 r Hp IH | x r0 r Hx Hp IH |]; intros k H.
  - exact H.
  - destruct (x =? NUL)%char eqn:Hnul.
    + cbn [c_strstr] in H |- *.
      pose proof (starts_with_patched key _ _ Hclean (patched_same x r0 r Hp))
        as [Hto Hfrom].
      destruct (starts_with key (String x r)) as [u | |] eqn:Hs; try discriminate.
      * destruct u. rewrite (Hfrom eq_refl). exact H.
      * rewrite Hnul in H. discriminate.
    + apply (Hstep x x r0 r k); auto using patched_same.
  - apply (Hstep x RBRACE r0 r k); auto using patched_separator.
    left. destruct Hx as [-> | ->]; reflexivity.
  - apply (Hstep NUL RBRACE EmptyString EmptyString k); auto using patched_terminator.
Qed.

Lemma c_strchr_colon_patched (b0 b : block) (n : nat) :
  patched b0 b -> c_strchr COLON b = Hit n -> c_strchr COLON b0 = Hit n.
Proof.
  intros Hp. revert n.
  induction Hp as [| x r0 r Hp IH | x r0 r Hx Hp IH |]; intros n H.
  - exact H.
  - cbn [c_strchr] in H |- *.
    destruct (x =? COLON)%char; [exact H |].
    destruct (x =? NUL)%char; [exact H |].
    destruct (c_strchr COLON r) as [n' | |]; try discriminate.
    rewrite (IH n' eq_refl). exact H.
  - cbn [c_strchr] in H |- *.
    change (RBRACE =? COLON)%char with false in H.
    change (RBRACE =? NUL)%char with false in H. cbv iota in H.
    assert (Hx1 : (x =? COLON)%char = false) by (destruct Hx as [-> | ->]; reflexivity).
    assert (Hx2 : (x =? NUL)%char = false) by (destruct Hx as [-> | ->]; reflexivity).
    rewrite Hx1, Hx2.
    destruct (c_strchr COLON r) as [n' | |]; try discriminate.
    rewrite (IH n' eq_refl). exact H.
  - discriminate H.
Qed.

Lemma skip_blanks_patched (b0 b : block) (w : nat) :
  patched b0 b -> skip_blanks b = Some w -> skip_blanks b0 = Some w.
Proof.
  intros Hp. revert w.
  induction Hp as [| x r0 r Hp IH | x r0 r Hx Hp IH |]; intros w H.
  - exact H.
  - cbn [skip_blanks] in H |- *.
    destruct ((x =? SPACE) || (x =? TAB))%char; [| exact H].
    destruct (skip_blanks r) as [w' |]; [| discriminate].
    rewrite (IH w' eq_refl). exact H.
  - cbn [skip_blanks] in H |- *.
    change ((RBRACE =? SPACE) || (RBRACE =? TAB))%char with false in H. cbv iota in H.
    assert (Hx' : ((x =? SPACE) || (x =? TAB))%char = false)
      by (destruct Hx as [-> | ->]; reflexivity).
    rewrite Hx'. exact H.
  - exact H.
Qed.

Lemma value_offset_patched (key : string) (b0 b : block) (pos : nat) :
  clean key = true -> patched b0 b ->
  value_offset key b = Hit pos -> value_offset key b0 = Hit pos.
Proof.
  intros Hclean Hp. unfold value_offset. intros H.
  destruct (c_strstr key b) as [k | |] eqn:Hk; try discriminate.
  rewrite (c_strstr_patched key b0 b k Hclean Hp Hk).
  destruct (c_strchr COLON (drop k b)) as [c | |] eqn:Hc; try discriminate.
  rewrite (c_strchr_colon_patched _ _ c (patched_drop k _ _ Hp) Hc).
  destruct (skip_blanks (drop (S (k + c)) b)) as [w |] eqn:Hw; try discriminate.
  rewrite (skip_blanks_patched _ _ w (patched_drop (S (k + c)) _ _ Hp) Hw).
  exact H.
Qed.

(** The literal found in a patched block is in the block itself. *)
Lemma true_literal_found_patched (b0 b : block) :
  patched b0 b -> true_literal_found b = true -> true_literal_found b0 = true.
Proof.
  intros Hp. unfold true_literal_found. intros H.
  destruct (value_offset (quoted "encrypted") b) as [pos | |] eqn:Hv; try discriminate.
  rewrite (value_offset_patched (quoted "encrypted") b0 b pos eq_refl Hp Hv).
  destruct (starts_with "true" (drop pos b)) as [u | |] eqn:Hs; try discriminate.
  destruct u.
  rewrite (proj2 (starts_with_patched "true" _ _ eq_refl (patched_drop pos _ _ Hp)) Hs).
  reflexivity.
Qed.

(** *** What a run that reaches the end of a command has done to the block *)

Lemma bind_Some {A B : Type} (c : run A) (k : A -> run B) (m m2 : machine) (b : B) :
  bind c k m = (Some b, m2) ->
  exists a m1, c m = (Some a, m1) /\ k a m1 = (Some b, m2).
Proof.
  unfold bind. destruct (c m) as [[a |] m1]; intros H; [| discriminate].
  exists a, m1. split; [reflexivity | exact H].
Qed.

Lemma ret_Some {A : Type} (a b : A) (m m' : machine) :
  ret a m = (Some b, m') -> a = b /\ m' = m.
Proof. unfold ret. intros H. injection H as -> ->. auto. Qed.

Lemma of_option_Some {A : Type} (o : option A) (m m' : machine) (a : A) :
  of_option o m = (Some a, m') -> o = Some a /\ m' = m.
Proof. destruct o; intros H; [| discriminate]. injection H as -> ->. auto. Qed.

Lemma of_scan_Some (base : nat) (r : scan nat) (m m' : machine) (p : option nat) :
  of_scan base r m = (Some p, m') ->
  m' = m /\ match p with
            | Some q => exists n, r = Hit n /\ q = (base + n)%nat
            | None => r = Miss
            end.
Proof.
  destruct r as [n | |]; intros H; try discriminate.
  - injection H as <- <-. split; [reflexivity |]. exists n. auto.
  - injection H as <- <-. auto.
Qed.

Lemma store_Some (p : nat) (c : ascii) (m m' : machine) (u : unit) :
  store p c m = (Some u, m') ->
  data m' = data m /\ poke (json_copy m) p c = Some (json_copy m').
Proof.
  unfold store. destruct (poke (json_copy m) p c) as [b |]; intros H; [| discriminate].
  injection H as _ <-. auto.
Qed.

Lemma assign_Some (f : mcp_json_data_t -> mcp_json_data_t) (m m' : machine) (u : unit) :
  assign f m = (Some u, m') -> json_copy m' = json_copy m.
Proof. unfold assign. intros H. injection H as _ <-. reflexivity. Qed.

Lemma load_Some (p : nat) (m m' : machine) (c : ascii) :
  load p m = (Some c, m') -> m' = m /\ peek (json_copy m) p = Some c.
Proof.
  unfold load, reading. intros H. apply of_option_Some in H as [H ->]. auto.
Qed.

Lemma strchr_Some (p : nat) (c : ascii) (m m' : machine) (r : option nat) :
  strchr p c m = (Some r, m') ->
  m' = m /\ match r with
            | Some q => exists n, c_strchr c (drop p (json_copy m)) = Hit n
                                  /\ q = (p + n)%nat
            | None => c_strchr c (drop p (json_copy m)) = Miss
            end.
Proof. unfold strchr, reading. apply of_scan_Some. Qed.

Lemma wmem_strdup_Some (p : nat) (m m' : machine) (v : string) :
  wmem_strdup p m = (Some v, m') -> m' = m.
Proof.
  unfold wmem_strdup, reading. intros H. apply of_option_Some in H as [_ ->].
  reflexivity.
Qed.

Lemma numeric_end_Some (p : nat) (m m' : machine) (e : nat) :
  numeric_end p m = (Some e, m') ->
  m' = m /\ exists n, id_end (drop p (json_copy m)) = Some n /\ e = (p + n)%nat.
Proof.
  unfold numeric_end, reading. intros H. apply of_option_Some in H as [H ->].
  split; [reflexivity |].
  destruct (id_end (drop p (json_copy m))) as [n |]; [| discriminate].
  injection H as <-. exists n. auto.
Qed.

Lemma value_position_run (key : string) (m : machine) :
  value_position key m = of_scan 0 (value_offset key (json_copy m)) m.
Proof.
  unfold value_position, value_offset, bind, strstr, strchr, skip_whitespace, reading.
  change (drop 0 (json_copy m)) with (json_copy m).
  destruct (c_strstr key (json_copy m)) as [k | |]; try reflexivity.
  cbn [of_scan ret]. change (0 + k)%nat with k.
  destruct (c_strchr COLON (drop k (json_copy m))) as [c | |]; try reflexivity.
  cbn [of_scan ret].
  generalize (skip_blanks (drop (S (k + c)) (json_copy m))).
  intros [w |]; reflexivity.
Qed.

Lemma value_position_Some (key : string) (m m' : machine) (r : option nat) :
  value_position key m = (Some r, m') -> m' = m.
Proof.
  rewrite value_position_run. intros H. apply of_scan_Some in H as [-> _]. reflexivity.
Qed.

Lemma peek_drop (b : block) (p n : nat) : peek (drop p b) n = peek b (p + n).
Proof.
  revert b. induction p as [| p IH]; intros b; [reflexivity |].
  destruct b as [| x b]; simpl; [destruct n; reflexivity | apply IH].
Qed.

Lemma c_strchr_peek (c : ascii) (h : string) (n : nat) :
  c_strchr c h = Hit n -> peek h n = Some c.
Proof.
  revert n. induction h as [| x h IH]; intros n H; [discriminate |].
  cbn [c_strchr] in H. destruct (Ascii.eqb_spec x c) as [-> | Hne].
  - injection H as <-. reflexivity.
  - destruct (x =? NUL)%char; [discriminate |].
    destruct (c_strchr c h) as [n' | |]; try discriminate.
    injection H as <-. apply (IH n' eq_refl).
Qed.

Lemma id_end_peek (h : string) (n : nat) :
  id_end h = Some n ->
  exists x, peek h n = Some x /\ (x = NUL \/ x = COMMA \/ x = RBRACE).
Proof.
  revert n. induction h as [| x h IH]; intros n H; [discriminate |].
  cbn [id_end] in H.
  destruct (Ascii.eqb_spec x NUL) as [-> | H1].
  - injection H as <-. exists NUL. auto.
  - destruct (Ascii.eqb_spec x COMMA) as [-> | H2].
    + injection H as <-. exists COMMA. auto.
    + destruct (Ascii.eqb_spec x RBRACE) as [-> | H3].
      * injection H as <-. exists RBRACE. auto.
      * simpl in H. destruct (id_end h) as [n' |]; [| discriminate].
        injection H as <-. apply (IH n' eq_refl).
Qed.

Lemma poke_restore (b b1 b2 : block) (e : nat) (x y : ascii) :
  poke b e x = Some b1 -> poke b1 e y = Some b2 -> peek b e = Some y -> b2 = b.
Proof.
  revert b1 b2 e. induction b as [| c b IH]; intros b1 b2 e H1 H2 Hy; [discriminate |].
  destruct e as [| e]; cbn [poke] in H1.
  - injection H1 as <-. cbn [poke] in H2. injection H2 as <-.
    simpl in Hy. injection Hy as ->. reflexivity.
  - destruct (poke b e x) as [r1 |] eqn:Hr1; [| discriminate].
    simpl in H1. injection H1 as <-. cbn [poke] in H2.
    destruct (poke r1 e y) as [r2 |] eqn:Hr2; [| discriminate].
    simpl in H2. injection H2 as <-. f_equal.
    apply (IH r1 r2 e Hr1 Hr2). exact Hy.
Qed.

Lemma poke_poke (b b1 b2 : block) (e : nat) (x y : ascii) :
  poke b e x = Some b1 -> poke b1 e y = Some b2 -> poke b e y = Some b2.
Proof.
  revert b1 b2 e. induction b as [| c b IH]; intros b1 b2 e H1 H2; [discriminate |].
  destruct e as [| e]; cbn [poke] in H1 |- *.
  - injection H1 as <-. exact H2.
  - destruct (poke b e x) as [r1 |] eqn:Hr1; [| discriminate].
    simpl in H1. injection H1 as <-. cbn [poke] in H2.
    destruct (poke r1 e y) as [r2 |] eqn:Hr2; [| discriminate].
    simpl in H2. injection H2 as <-.
    rewrite (IH r1 r2 e Hr1 Hr2). reflexivity.
Qed.

Lemma peek_poke (b b1 : block) (e : nat) (x : ascii) :
  poke b e x = Some b1 -> peek b1 e = Some x.
Proof.
  revert b1 e. induction b as [| c b IH]; intros b1 e H; [discriminate |].
  destruct e as [| e]; cbn [poke] in H.
  - injection H as <-. reflexivity.
  - destruct (poke b e x) as [r1 |] eqn:Hr1; [| discriminate].
    simpl in H. injection H as <-. apply (IH r1 e Hr1).
Qed.

Lemma c_text_c_string (t : string) :
  nul_free t = true -> c_text (c_string t) = Some t.
Proof.
  induction t as [| c t IH]; intros H; [reflexivity |].
  cbn [nul_free] in H. apply andb_true_iff in H as [Hc Ht].
  apply negb_true_iff in Hc. cbn [c_string append c_text]. rewrite Hc.
  change (c_text (c_string t)) with (c_text (t ++ String NUL EmptyString)%string) in IH.
  rewrite (IH Ht). reflexivity.
Qed.

(** A closing brace written over a NUL, a comma or a closing brace of a
    terminated text yields a patched block. *)
Lemma patched_poke (t : string) (b : block) (e : nat) (x : ascii) :
  nul_free t = true -> peek (c_string t) e = Some x ->
  x = NUL \/ x = COMMA \/ x = RBRACE ->
  poke (c_string t) e RBRACE = Some b -> patched (c_string t) b.
Proof.
  revert b e. induction t as [| c t IH]; intros b e Hfree Hx Hsep Hpoke.
  - destruct e as [| e]; [| destruct e; discriminate].
    cbn in Hpoke. injection Hpoke as <-. apply patched_terminator.
  - cbn [nul_free] in Hfree. apply andb_true_iff in Hfree as [Hc Ht].
    apply negb_true_iff in Hc.
    change (c_string (String c t)) with (String c (c_string t)) in *.
    destruct e as [| e]; cbn [poke] in Hpoke.
    + injection Hpoke as <-. simpl in Hx. injection Hx as ->.
      apply patched_separator; [| apply patched_refl].
      destruct Hsep as [-> | H]; [discriminate | exact H].
    + destruct (poke (c_string t) e RBRACE) as [r |] eqn:Hr; [| discriminate].
      simpl in Hpoke. injection Hpoke as <-. apply patched_same.
      apply (IH r e Ht Hx Hsep Hr).
Qed.

Lemma quoted_value_block pos set (m m' : machine) (u : unit) :
  quoted_value pos set m = (Some u, m') -> json_copy m' = json_copy m.
Proof.
  unfold quoted_value. cbv zeta. intros H.
  apply bind_Some in H as (e & m1 & He & H).
  apply strchr_Some in He as [-> He].
  destruct e as [e |]; cbn [when_found] in H.
  - destruct He as (n & Hn & ->).
    apply bind_Some in H as (u1 & m2 & Hs1 & H). apply store_Some in Hs1 as [_ Hp1].
    apply bind_Some in H as (v & m3 & Hd & H). apply wmem_strdup_Some in Hd as ->.
    apply bind_Some in H as (u2 & m4 & Ha & H). apply assign_Some in Ha.
    apply store_Some in H as [_ Hp2]. rewrite Ha in Hp2.
    apply (poke_restore _ _ _ _ _ _ Hp1 Hp2).
    rewrite <- peek_drop. apply c_strchr_peek. exact Hn.
  - apply ret_Some in H as [_ ->]. reflexivity.
Qed.

Lemma extract_string_block key set (m m' : machine) (u : unit) :
  extract_string key set m = (Some u, m') -> json_copy m' = json_copy m.
Proof.
  unfold extract_string. intros H.
  apply bind_Some in H as (pos & m1 & Hpos & H).
  apply value_position_Some in Hpos as ->.
  destruct pos as [pos |]; cbn [when_found] in H.
  - apply bind_Some in H as (c & m2 & Hc & H). apply load_Some in Hc as [-> _].
    destruct (c =? DQUOTE)%char.
    + apply (quoted_value_block _ _ _ _ _ H).
    + apply ret_Some in H as [_ ->]. reflexivity.
  - apply ret_Some in H as [_ ->]. reflexivity.
Qed.

Lemma extract_id_block (t : string) (m m' : machine) (u : unit) :
  nul_free t = true -> json_copy m = c_string t ->
  extract_id m = (Some u, m') -> patched (c_string t) (json_copy m').
Proof.
  intros Hfree Hb. unfold extract_id. intros H.
  apply bind_Some in H as (pos & m1 & Hpos & H).
  apply value_position_Some in Hpos as ->.
  destruct pos as [pos |]; cbn [when_found] in H;
    [| apply ret_Some in H as [_ ->]; rewrite Hb; apply patched_refl].
  apply bind_Some in H as (c & m2 & Hc & H). apply load_Some in Hc as [-> _].
  destruct (c =? DQUOTE)%char.
  { rewrite (quoted_value_block _ _ _ _ _ H), Hb. apply patched_refl. }
  cbv zeta in H.
  apply bind_Some in H as (e & m3 & He & H).
  apply numeric_end_Some in He as [-> (n & Hn & ->)].
  destruct (pos <? pos + n)%nat;
    [| apply ret_Some in H as [_ ->]; rewrite Hb; apply patched_refl].
  apply bind_Some in H as (u1 & m4 & Hs1 & H). apply store_Some in Hs1 as [_ Hp1].
  apply bind_Some in H as (v & m5 & Hd & H). apply wmem_strdup_Some in Hd as ->.
  apply bind_Some in H as (u2 & m6 & Ha & H). apply assign_Some in Ha.
  apply bind_Some in H as (c' & m7 & Hl & H). apply load_Some in Hl as [-> Hl].
  apply store_Some in H as [_ Hp2].
  rewrite Ha in Hl, Hp2. rewrite (peek_poke _ _ _ _ Hp1) in Hl. injection Hl as <-.
  change (NUL =? COMMA)%char with false in Hp2. cbv iota in Hp2.
  pose proof (poke_poke _ _ _ _ _ _ Hp1 Hp2) as Hp.
  rewrite Hb in Hp, Hn.
  destruct (id_end_peek _ _ Hn) as (x & Hx & Hsep). rewrite peek_drop in Hx.
  apply (patched_poke t _ _ x Hfree Hx Hsep Hp).
Qed.

(** *** The flag is raised only on the literal *)

Lemma extract_encryption_flag (m : machine) :
  unflagged (data m) ->
  encrypted (data (snd (extract_encryption m))) = true ->
  true_literal_found (json_copy m) = true.
Proof.
  unfold unflagged. intros Hm. unfold extract_encryption, true_literal_found.
  unfold bind at 1. rewrite value_position_run.
  destruct (value_offset (quoted "encrypted") (json_copy m)) as [pos | |];
    cbn [of_scan ret fault when_found snd data]; try congruence.
  change (0 + pos)%nat with pos.
  unfold bind at 1. unfold strncmp_true, reading.
  destruct (starts_with "true" (drop pos (json_copy m))) as [u | |];
    cbn [ret fault snd data]; congruence.
Qed.

Lemma flag_through_bind {A B : Type} (c : run A) (k : A -> run B) (m : machine) :
  preserves unflagged c -> unflagged (data m) ->
  encrypted (data (snd (bind c k m))) = true ->
  exists a m', c m = (Some a, m') /\ unflagged (data m')
               /\ encrypted (data (snd (k a m'))) = true.
Proof.
  intros Hc Hm. specialize (Hc m Hm). unfold bind.
  destruct (c m) as [[a |] m']; cbn [snd] in *; intros H.
  - exists a, m'. auto.
  - unfold unflagged in Hc. congruence.
Qed.

Lemma preserves_unflagged_tail :
  preserves unflagged
    (extract_object (quoted "params") set_params agent_id_from_params ;;;
     extract_object (quoted "result") set_result (fun _ => ret tt) ;;;
     extract_error_code ;;;
     extract_string (quoted "message") set_error_message).
Proof.
  repeat (apply preserves_bind; [| intros _]).
  - apply preserves_extract_object; [intros v d H; exact H | intros v].
    apply preserves_agent_id_from_params. intros a d H. exact H.
  - apply preserves_extract_object; [intros v d H; exact H | intros v; frame].
  - apply preserves_extract_error_code. intros v d H. exact H.
  - apply preserves_extract_string. intros v d H. exact H.
Qed.

Lemma parse_fields_flag (t : string) (d : mcp_json_data_t) :
  nul_free t = true -> unflagged d ->
  encrypted (data (snd (parse_fields (mk_machine (c_string t) d)))) = true ->
  true_literal_found (c_string t) = true.
Proof.
  intros Hfree Hd H. unfold parse_fields in H.
  apply flag_through_bind in H as (u1 & m1 & E1 & U1 & H);
    [| apply preserves_extract_string; intros v d' Hd'; exact Hd' | exact Hd].
  apply extract_string_block in E1. cbn [json_copy] in E1.
  apply flag_through_bind in H as (u2 & m2 & E2 & U2 & H);
    [| apply preserves_extract_string; intros v d' Hd'; exact Hd' | exact U1].
  apply extract_string_block in E2. rewrite E1 in E2.
  apply flag_through_bind in H as (u3 & m3 & E3 & U3 & H);
    [| apply preserves_extract_id; intros v d' Hd'; exact Hd' | exact U2].
  apply (extract_id_block t _ _ _ Hfree E2) in E3.
  apply (true_literal_found_patched _ _ E3).
  pose proof (extract_encryption_flag m3 U3) as Hflag.
  unfold bind at 1 in H.
  destruct (extract_encryption m3) as [[u4 |] m4]; cbn [snd] in Hflag, H;
    cbv beta in H.
  - destruct (encrypted (data m4)) eqn:E4; [apply Hflag; reflexivity |].
    pose proof (preserves_unflagged_tail m4 E4) as Htail.
    unfold unflagged in Htail. congruence.
  - apply Hflag. exact H.
Qed.

Lemma extract_flag (text : string) :
  nul_free text = true -> encrypted (extract text) = true ->
  true_literal_found (c_string text) = true.
Proof.
  intros Hfree. unfold extract, parse_json_rpc.
  rewrite (c_text_c_string text Hfree).
  apply parse_fields_flag; [exact Hfree | reflexivity].
Qed.

(* ================================================================== *)
(** ** The agent identifier *)


(** What the lookup in the copy of params does to the record. *)
Lemma agent_id_from_params_data (v : string) (m : machine) :
  data (snd (agent_id_from_params v m))
  = match agent_id_in v with
    | Some a => set_agent_id a (data m)
    | None => data m
    end.
Proof.
  unfold agent_id_from_params, agent_id_in.
  destruct (extract_agent_id (c_string v) (zeroed 256) 256) as [buf |]; [| reflexivity].
  unfold bind, of_option, ret, fault. cbv beta iota.
  destruct (c_strlen buf) as [len |]; [| reflexivity].
  cbv beta iota.
  destruct (0 <? len)%nat; [| destruct (c_text buf); reflexivity].
  destruct (c_text buf); reflexivity.
Qed.





(** *** The 256-byte array bounds the identifier *)

Lemma length_poke (b b' : block) (p : nat) (c : ascii) :
  poke b p c = Some b' -> String.length b' = String.length b.
Proof.
  revert b' p. induction b as [| x b IH]; intros b' p H; [discriminate |].
  destruct p as [| p]; simpl in H.
  - injection H as <-. reflexivity.
  - destruct (poke b p c) as [r |] eqn:Hr; [| discriminate].
    simpl in H. injection H as <-. simpl. f_equal. apply (IH r p). exact Hr.
Qed.


Lemma length_zeroed (n : nat) : String.length (zeroed n) = n.
Proof. induction n as [| n IH]; simpl; [reflexivity | f_equal; exact IH]. Qed.








(** The longest identifier that is kept has 255 characters. *)
Example agent_id_255_kept :
  agent_id (extract (agent_payload (letters 255))) = Some (letters 255)
  /\ agent_id (extract (agent_payload (letters 256))) = None
  /\ agent_id (extract (agent_payload EmptyString)) = None.
Proof. vm_compute. repeat split; reflexivity. Qed.

(* ================================================================== *)
(** ** The version gate of the dissector *)

Lemma is_version_2_0_false (d : mcp_json_data_t) :
  jsonrpc d <> Some "2.0" -> is_version_2_0 d = false.
Proof.
  unfold is_version_2_0. intros H. destruct (jsonrpc d) as [v |]; [| reflexivity].
  destruct (String.eqb_spec v "2.0") as [-> | _]; [| reflexivity].
  elim H. reflexivity.
Qed.

(** C9: for a text frame whose payload yields a jsonrpc version that is
    absent or differs from the string 2.0, the dissector reports the
    WebSocket subtree and the payload item and nothing else: no MCP subtree,
    no MCP field, no write to the protocol or info column. *)
Theorem C9_version_gate (tvb payload_tvb : tvbuff_t) (f : ws_frame) :
  decode_header tvb = Frame f ->
  text_payload tvb = Some payload_tvb ->
  jsonrpc (parsed payload_tvb) <> Some "2.0" ->
  events (dissect_mcp_websocket tvb)
  = ws_events f
    ++ [add_item ws_tree hf_ws_payload on_payload_tvb 0 (-1)
          (Text (ascii_text payload_tvb))]
  /\ existsb touches_mcp (events (dissect_mcp_websocket tvb)) = false.
Proof.
  intros Hdec Hpayload Hversion.
  assert (Hevents : events (dissect_mcp_websocket tvb)
                    = ws_events f
                      ++ [add_item ws_tree hf_ws_payload on_payload_tvb 0 (-1)
                            (Text (ascii_text payload_tvb))]).
  { unfold text_payload in Hpayload. unfold dissect_mcp_websocket.
    rewrite Hdec in Hpayload |- *. cbv zeta.
    destruct ((0 <? payload_len f)
              && (u32 (offset f + payload_len f) <=? tvb_captured_length tvb));
      [| discriminate].
    simpl andb in Hpayload.
    destruct (opcode f =? 1); [| discriminate].
    rewrite Hpayload.
    apply is_version_2_0_false in Hversion. unfold parsed in Hversion.
    destruct (parse_json_rpc (tvb_get_string_enc payload_tvb) zero_data) as [[u |] m].
    - simpl in Hversion. rewrite Hversion. cbv beta iota zeta. unfold events.
      apply app_nil_r.
    - reflexivity. }
  split; [exact Hevents |].
  rewrite Hevents, existsb_app. reflexivity.
Qed.

Lemma C9_version_gate_witness :
  existsb touches_mcp
    (events (dissect_mcp_websocket
               (text_frame (json "{'jsonrpc':'1.0','method':'tools/call'}"))))
  = false.
Proof.
  apply (fun Hdec Hpayload Hversion =>
           proj2 (C9_version_gate
                    (text_frame (json "{'jsonrpc':'1.0','method':'tools/call'}"))
                    (bytes_of_string (json "{'jsonrpc':'1.0','method':'tools/call'}"))
                    (mk_frame 1 1 2 39) Hdec Hpayload Hversion)).
  - reflexivity.
  - reflexivity.
  - discriminate.
Defined.

(** The same frame with version 2.0 does get its MCP subtree and summary. *)
Example version_2_0_is_rendered :
  existsb touches_mcp
    (events (dissect_mcp_websocket
               (text_frame (json "{'jsonrpc':'2.0','method':'tools/call'}"))))
  = true.
Proof. vm_compute. reflexivity. Qed.

(* ================================================================== *)
(** ** Where the extractor leaves its contract *)

(** The guard on the result of the brace loop never fails: the loop has
    stepped over the opening brace at least, whether or not the count came
    back to zero. *)
Lemma brace_end_positive (h : string) (n : nat) :
  brace_end (String LBRACE h) 0 = Some n -> (0 < n)%nat.
Proof.
  intros H. change (option_map S (brace_end h (0 + 1)) = Some n) in H.
  destruct (brace_end h (0 + 1)) as [k |]; [| discriminate].
  injection H as <-. lia.
Qed.

(** C2 fails on the text the specification gives for it: the object that
    never closes is kept as the value of params, from its opening brace to
    the end of the text. *)
Theorem C2_unterminated_params_is_set :
  params (extract (json "'params':{'a':1")) = Some (json "{'a':1").
Proof. vm_compute. reflexivity. Qed.

(** The unterminated object next to the unterminated string: the string
    path leaves its field unset. *)
Example unterminated_string_is_unset :
  method (extract (json "'method':'abc")) = None.
Proof. vm_compute. reflexivity. Qed.

(** C3 fails on a params object that holds a numeric id: extracting id
    overwrites the comma after 7 with a closing brace, and params, which on
    the untouched text is the whole object, is cut short. *)
Theorem C3_id_extraction_changes_params :
  params (extract (json "{'params':{'id':7,'k':{'z':1}}}")) = Some (json "{'id':7}")
  /\ params (data (snd (extract_object (quoted "params") set_params agent_id_from_params
                          (mk_machine (c_string (json "{'params':{'id':7,'k':{'z':1}}}"))
                             zero_data))))
     = Some (json "{'id':7,'k':{'z':1}}")
  /\ json_copy (snd (extract_id
                       (mk_machine (c_string (json "{'params':{'id':7,'k':{'z':1}}}"))
                          zero_data)))
     = c_string (json "{'params':{'id':7}'k':{'z':1}}}").
Proof. vm_compute. repeat split; reflexivity. Qed.

(** The part of C3 the code keeps: of two occurrences of a key the first
    one gives the value. *)
Example first_occurrence_wins :
  method (extract (json "{'method':'a'} ... 'method':'b'")) = Some "a".
Proof. vm_compute. reflexivity. Qed.

(** C8 fails in the extractor.  On an object that never closes, the byte
    written back after the copy of params lands on the terminator of
    json_copy, and the next [strstr] runs past the end of the block.  The
    same happens on well-formed JSON when a string inside params holds an
    opening brace. *)
Theorem C8_extractor_reads_past_json_copy :
  extract_in_bounds (json "'params':{'a':1") = false
  /\ json_copy (snd (parse_json_rpc (c_string (json "'params':{'a':1")) zero_data))
     = json "'params':{'a':1}"
  /\ outcome (dissect_mcp_websocket (text_frame (json "'params':{'a':1"))) = OutOfBounds
  /\ outcome (dissect_mcp_websocket
                (text_frame (json "{'jsonrpc':'2.0','method':'x','params':{'a':'{'}}")))
     = OutOfBounds.
Proof. vm_compute. repeat split; reflexivity. Qed.

(* ================================================================== *)
(** ** More on the frame header *)

Lemma header_fin_range (b0 : byte) : header_fin b0 = 0 \/ header_fin b0 = 1.
Proof. destruct b0; vm_compute; auto. Qed.

Lemma header_opcode_range (b0 : byte) : 0 <= header_opcode b0 <= 15.
Proof. destruct b0; vm_compute; split; discriminate. Qed.

Lemma be_value_two (l0 l1 : byte) :
  be_value [l0; l1] = byte_value l0 * 256 + byte_value l1.
Proof. unfold be_value. simpl. lia. Qed.

Lemma decode_header_frame_ranges (tvb : tvbuff_t) (f : ws_frame) :
  decode_header tvb = Frame f ->
  (fin f = 0 \/ fin f = 1)
  /\ 0 <= opcode f <= 15
  /\ ((offset f = 2 /\ 0 <= payload_len f <= 125)
      \/ (offset f = 4 /\ 0 <= payload_len f < 2 ^ 16)
      \/ (offset f = 10 /\ 0 <= payload_len f < 2 ^ 32))
  /\ offset f <= tvb_captured_length tvb.
Proof.
  intros H.
  destruct tvb as [| b0 [| b1 rest]];
    try (rewrite decode_header_short in H
           by (unfold tvb_captured_length; simpl; lia); discriminate).
  pose proof (header_fin_range b0) as Hfin.
  pose proof (header_opcode_range b0) as Hop.
  pose proof (length_code_range b1) as Hcode.
  destruct (Z.eq_dec (length_code b1) 126) as [H126 | N126].
  - destruct rest as [| l0 [| l1 rest]];
      try (rewrite (decode_header_126_short _ b1) in H
             by (try reflexivity; try assumption;
                 unfold tvb_captured_length; simpl; lia); discriminate).
    rewrite decode_header_126 in H by exact H126. injection H as <-.
    cbn [fin opcode offset payload_len]. rewrite be_value_two.
    pose proof (byte_value_range l0). pose proof (byte_value_range l1).
    split; [exact Hfin | split; [exact Hop | split]].
    + right. left. lia.
    + unfold tvb_captured_length. simpl List.length. lia.
  - destruct (Z.eq_dec (length_code b1) 127) as [H127 | N127].
    + destruct (Z_lt_le_dec (tvb_captured_length (b0 :: b1 :: rest)) 10) as [Hs | Hl].
      { rewrite (decode_header_127_short _ b1) in H
          by (try reflexivity; assumption). discriminate. }
      destruct rest as [| l0 [| l1 [| l2 [| l3 [| l4 [| l5 [| l6 [| l7 rest]]]]]]]];
        try (unfold tvb_captured_length in Hl; simpl List.length in Hl; lia).
      rewrite decode_header_127 in H by exact H127. injection H as <-.
      cbn [fin opcode offset payload_len].
      pose proof (Z.mod_pos_bound (be_value [l0; l1; l2; l3; l4; l5; l6; l7]) (2 ^ 32)).
      unfold u32. split; [exact Hfin | split; [exact Hop | split]].
      * right. right. lia.
      * exact Hl.
    + rewrite decode_header_small in H by lia. injection H as <-.
      cbn [fin opcode offset payload_len].
      split; [exact Hfin | split; [exact Hop | split]].
      * left. lia.
      * unfold tvb_captured_length. simpl List.length. lia.
Qed.

(** X1: every decoded header has FIN 0 or 1, an opcode of four bits, one of the
    three header lengths with a payload length in the range of that
    encoding, and lies within the captured bytes. *)
Theorem decode_header_ranges (tvb : tvbuff_t) (f : ws_frame) :
  decode_header tvb = Frame f ->
  (fin f = 0 \/ fin f = 1)
  /\ 0 <= opcode f <= 15
  /\ ((offset f = 2 /\ 0 <= payload_len f <= 125)
      \/ (offset f = 4 /\ 0 <= payload_len f < 2 ^ 16)
      \/ (offset f = 10 /\ 0 <= payload_len f < 2 ^ 32))
  /\ offset f <= tvb_captured_length tvb.
Proof. exact (decode_header_frame_ranges tvb f). Qed.

Lemma decode_header_ranges_witness :
  (fin (mk_frame 1 1 4 256) = 0 \/ fin (mk_frame 1 1 4 256) = 1)
  /\ 0 <= opcode (mk_frame 1 1 4 256) <= 15
  /\ ((offset (mk_frame 1 1 4 256) = 2 /\ 0 <= payload_len (mk_frame 1 1 4 256) <= 125)
      \/ (offset (mk_frame 1 1 4 256) = 4
          /\ 0 <= payload_len (mk_frame 1 1 4 256) < 2 ^ 16)
      \/ (offset (mk_frame 1 1 4 256) = 10
          /\ 0 <= payload_len (mk_frame 1 1 4 256) < 2 ^ 32))
  /\ offset (mk_frame 1 1 4 256) <= tvb_captured_length [x81; x7e; x01; x00].
Proof.
  apply (decode_header_ranges [x81; x7e; x01; x00] (mk_frame 1 1 4 256)).
  reflexivity.
Defined.

(** X2: the 16-bit encoding for every pair of length bytes: the payload length
    is their big-endian value, whatever it is (a length below 126 is not
    refused), and a buffer of fewer than four bytes is too short. *)
Theorem decode_header_length_16 :
  (forall b0 b1 l0 l1 rest, length_code b1 = 126 ->
     decode_header (b0 :: b1 :: l0 :: l1 :: rest)
     = Frame (mk_frame (header_fin b0) (header_opcode b0) 4
                (byte_value l0 * 256 + byte_value l1)))
  /\ (forall tvb b1, nth_error tvb 1 = Some b1 -> length_code b1 = 126 ->
        tvb_captured_length tvb < 4 -> decode_header tvb = TooShort).
Proof.
  split.
  - intros. rewrite decode_header_126 by assumption. rewrite be_value_two. reflexivity.
  - exact decode_header_126_short.
Qed.

Lemma decode_header_length_16_witness :
  decode_header [x81; x7e; x00; x05; x61]
  = Frame (mk_frame (header_fin x81) (header_opcode x81) 4
             (byte_value x00 * 256 + byte_value x05))
  /\ decode_header [x81; x7e; x00] = TooShort.
Proof.
  destruct decode_header_length_16 as [Hlong Hshort]. split.
  - apply (Hlong x81 x7e x00 x05 [x61]). reflexivity.
  - apply (Hshort [x81; x7e; x00] x7e); reflexivity.
Defined.

(** X3: the mask bit of the second byte and the three reserved bits of the
    first do not enter the decoding: two buffers that agree on FIN, opcode,
    length code and on every byte after the second decode to the same
    result. *)
Theorem decode_header_ignores_mask_and_rsv (b0 b0' b1 b1' : byte) (rest : list byte) :
  header_fin b0 = header_fin b0' -> header_opcode b0 = header_opcode b0' ->
  length_code b1 = length_code b1' ->
  decode_header (b0 :: b1 :: rest) = decode_header (b0' :: b1' :: rest).
Proof.
  intros Hfin Hop Hcode. rewrite !decode_header_two_bytes. cbv zeta.
  rewrite <- Hfin, <- Hop, <- Hcode.
  assert (Hs : tvb_get_ntohs (b0 :: b1 :: rest) 2 = tvb_get_ntohs (b0' :: b1' :: rest) 2).
  { unfold tvb_get_ntohs. change 2 with (0 + 1 + 1) at 1 2.
    rewrite !tvb_get_ntoh_cons by lia. reflexivity. }
  assert (Hl : tvb_get_ntoh64 (b0 :: b1 :: rest) 2 = tvb_get_ntoh64 (b0' :: b1' :: rest) 2).
  { unfold tvb_get_ntoh64. change 2 with (0 + 1 + 1) at 1 2.
    rewrite !tvb_get_ntoh_cons by lia. reflexivity. }
  rewrite Hs, Hl. reflexivity.
Qed.

Lemma decode_header_ignores_mask_and_rsv_witness :
  decode_header [x81; x85; x61; x62; x63; x64; x65; x66; x67; x68; x69]
  = decode_header [xf1; x05; x61; x62; x63; x64; x65; x66; x67; x68; x69].
Proof.
  apply (decode_header_ignores_mask_and_rsv x81 xf1 x85 x05); reflexivity.
Defined.

(* ================================================================== *)
(** ** Frames whose payload is there *)

Lemma to_int_small (z : Z) : 0 <= z < 2 ^ 31 -> to_int z = z.
Proof. intros H. unfold to_int. rewrite Z.mod_small by lia. lia. Qed.

Lemma complete_frame_slice (tvb : tvbuff_t) (f : ws_frame) :
  0 <= offset f -> 0 <= payload_len f ->
  offset f + payload_len f <= tvb_captured_length tvb ->
  tvb_captured_length tvb < 2 ^ 31 ->
  tvb_new_subset_length tvb (offset f) (to_int (payload_len f))
  = Some (payload_bytes tvb f)
  /\ Z.of_nat (List.length (payload_bytes tvb f)) = payload_len f.
Proof.
  intros Hoff Hlen Hfit Hcap. unfold tvb_new_subset_length, payload_bytes.
  rewrite to_int_small by lia.
  destruct (Z.ltb_spec (payload_len f) 0); [lia |].
  destruct (Z.ltb_spec (tvb_captured_length tvb) (offset f)); [lia |].
  split; [reflexivity |].
  unfold tvb_captured_length in *.
  rewrite List.length_firstn, List.length_skipn. lia.
Qed.

(** X4: a frame whose payload is not empty and lies within the captured bytes
    (fewer than 2^31 of them, as the framework has it): the report is the
    WebSocket subtree, then the payload item over exactly the declared
    bytes; unless the opcode is 1 nothing is parsed, nothing follows, and
    the function returns header length plus payload length. *)
Theorem complete_frame_report (tvb : tvbuff_t) (f : ws_frame) :
  decode_header tvb = Frame f ->
  0 < payload_len f ->
  offset f + payload_len f <= tvb_captured_length tvb ->
  tvb_captured_length tvb < 2 ^ 31 ->
  Z.of_nat (List.length (payload_bytes tvb f)) = payload_len f
  /\ (exists tail,
        events (dissect_mcp_websocket tvb)
        = ws_events f ++ payload_item (payload_bytes tvb f) :: tail)
  /\ (opcode f <> 1 ->
      dissect_mcp_websocket tvb
      = mk_dissection (ws_events f ++ [payload_item (payload_bytes tvb f)])
          (Returned (offset f + payload_len f)))
  /\ (outcome (dissect_mcp_websocket tvb) = Returned (offset f + payload_len f)
      \/ (opcode f = 1 /\ outcome (dissect_mcp_websocket tvb) = OutOfBounds)).
Proof.
  intros Hdec Hpos Hfit Hcap.
  assert (Hoff : 0 <= offset f).
  { destruct tvb as [| b0 [| b1 rest]];
      try (rewrite decode_header_short in Hdec
             by (unfold tvb_captured_length; simpl; lia); discriminate).
    rewrite decode_header_two_bytes in Hdec. cbv zeta in Hdec.
    destruct (length_code b1 =? 126).
    - destruct (tvb_captured_length (b0 :: b1 :: rest) <? 4); [discriminate |].
      destruct (tvb_get_ntohs (b0 :: b1 :: rest) 2); [| discriminate].
      injection Hdec as <-. simpl. lia.
    - destruct (length_code b1 =? 127).
      + destruct (tvb_captured_length (b0 :: b1 :: rest) <? 10); [discriminate |].
        destruct (tvb_get_ntoh64 (b0 :: b1 :: rest) 2); [| discriminate].
        injection Hdec as <-. simpl. lia.
      + injection Hdec as <-. simpl. lia. }
  destruct (complete_frame_slice tvb f Hoff ltac:(lia) Hfit Hcap) as [Hslice Hlen].
  split; [exact Hlen |].
  unfold dissect_mcp_websocket. rewrite Hdec. cbv zeta.
  unfold u32. rewrite (Z.mod_small (offset f + payload_len f)) by lia.
  destruct (Z.ltb_spec 0 (payload_len f)); [| lia].
  destruct (Z.leb_spec (offset f + payload_len f) (tvb_captured_length tvb)); [| lia].
  cbn [andb]. rewrite Hslice. rewrite to_int_small by lia.
  fold (payload_item (payload_bytes tvb f)).
  destruct (Z.eqb_spec (opcode f) 1) as [Hop | Hop].
  - destruct (parse_json_rpc (tvb_get_string_enc (payload_bytes tvb f)) zero_data)
      as [[u |] m]; cbn [events outcome].
    + split; [| split; [intros N; elim N; exact Hop | left; reflexivity]].
      eexists. rewrite <- app_assoc. reflexivity.
    + split; [| split; [intros N; elim N; exact Hop | right; auto]].
      exists []. reflexivity.
  - cbn [events outcome].
    split; [exists []; reflexivity | split; [reflexivity | left; reflexivity]].
Qed.

Lemma complete_frame_report_witness :
  dissect_mcp_websocket [x82; x02; x61; x62; x63]
  = mk_dissection
      (ws_events (mk_frame 1 2 2 2)
       ++ [payload_item (payload_bytes [x82; x02; x61; x62; x63] (mk_frame 1 2 2 2))])
      (Returned (offset (mk_frame 1 2 2 2) + payload_len (mk_frame 1 2 2 2))).
Proof.
  apply (fun Hdec Hpos Hfit Hcap =>
           proj1 (proj2 (proj2 (complete_frame_report [x82; x02; x61; x62; x63]
                                  (mk_frame 1 2 2 2) Hdec Hpos Hfit Hcap)))).
  - reflexivity.
  - reflexivity.
  - discriminate.
  - reflexivity.
  - discriminate.
Defined.

(** X5: a frame that declares an empty payload is reported by its header alone,
    whatever its opcode, and the function returns the header length: an
    empty text frame is never handed to the extractor. *)
Theorem empty_payload_reports_header (tvb : tvbuff_t) (f : ws_frame) :
  decode_header tvb = Frame f -> payload_len f = 0 ->
  dissect_mcp_websocket tvb = mk_dissection (ws_events f) (Returned (offset f)).
Proof.
  intros Hdec Hzero. unfold dissect_mcp_websocket. rewrite Hdec. cbv zeta.
  rewrite Hzero. cbn [Z.ltb Z.compare andb].
  assert (Hoff : offset f = 2 \/ offset f = 4 \/ offset f = 10).
  { destruct tvb as [| b0 [| b1 rest]];
      try (rewrite decode_header_short in Hdec
             by (unfold tvb_captured_length; simpl; lia); discriminate).
    rewrite decode_header_two_bytes in Hdec. cbv zeta in Hdec.
    destruct (length_code b1 =? 126).
    - destruct (tvb_captured_length (b0 :: b1 :: rest) <? 4); [discriminate |].
      destruct (tvb_get_ntohs (b0 :: b1 :: rest) 2); [| discriminate].
      injection Hdec as <-. auto.
    - destruct (length_code b1 =? 127).
      + destruct (tvb_captured_length (b0 :: b1 :: rest) <? 10); [discriminate |].
        destruct (tvb_get_ntoh64 (b0 :: b1 :: rest) 2); [| discriminate].
        injection Hdec as <-. auto.
      + injection Hdec as <-. auto. }
  rewrite Z.add_0_r. destruct Hoff as [-> | [-> | ->]]; reflexivity.
Qed.

Lemma empty_payload_reports_header_witness :
  dissect_mcp_websocket [x81; x00; x7b]
  = mk_dissection (ws_events (mk_frame 1 1 2 0)) (Returned (offset (mk_frame 1 1 2 0))).
Proof.
  apply (empty_payload_reports_header [x81; x00; x7b] (mk_frame 1 1 2 0)); reflexivity.
Defined.

(* ================================================================== *)
(** ** get_method_description *)

Lemma lookup_method_app (a b : list mcp_method_t) (name : string) :
  lookup_method (a ++ b) name
  = match lookup_method a name with
    | Some d => Some d
    | None => lookup_method b name
    end.
Proof.
  induction a as [| [m d] a IH]; [reflexivity |].
  simpl. destruct (String.eqb name m); [reflexivity | exact IH].
Qed.

Lemma lookup_method_In (table : list mcp_method_t) (name d : string) :
  lookup_method table name = Some d -> In (name, d) table.
Proof.
  induction table as [| [m d'] table IH]; [discriminate |].
  simpl. destruct (String.eqb_spec name m) as [-> | _].
  - intros H. injection H as ->. left. reflexivity.
  - intros H. right. exact (IH H).
Qed.

Lemma distinct_not_in (x : string) (l : list string) :
  existsb (String.eqb x) l = false -> ~ In x l.
Proof.
  intros H Hin. assert (Ht : existsb (String.eqb x) l = true).
  { apply existsb_exists. exists x. split; [exact Hin | apply String.eqb_refl]. }
  congruence.
Qed.

Lemma In_lookup_method (table : list mcp_method_t) (name d : string) :
  distinct (map fst table) = true -> In (name, d) table ->
  lookup_method table name = Some d.
Proof.
  induction table as [| [m d'] table IH]; intros Hd Hin; [contradiction |].
  cbn [map fst distinct] in Hd. apply andb_true_iff in Hd as [Hm Hd].
  apply negb_true_iff in Hm. apply distinct_not_in in Hm.
  simpl. destruct Hin as [Heq | Hin].
  - injection Heq as -> ->. rewrite String.eqb_refl. reflexivity.
  - destruct (String.eqb_spec name m) as [-> | _]; [| exact (IH Hd Hin)].
    elim Hm. apply in_map_iff. exists (m, d). auto.
Qed.

(** X6: the lookup over the three tables is exact and complete: a name has a
    description precisely when the pair stands in one of the tables (no two
    entries share a name, so the order of the tables decides nothing), and a
    name that is in none of them, in whatever spelling, gets none. *)
Theorem get_method_description_table (name : string) :
  (forall d, get_method_description name = Some d <-> In (name, d) all_descriptions)
  /\ (get_method_description name = None <-> ~ In name (map fst all_descriptions)).
Proof.
  assert (Heq : get_method_description name = lookup_method all_descriptions name).
  { unfold get_method_description, all_descriptions.
    rewrite !lookup_method_app. reflexivity. }
  assert (Hd : distinct (map fst all_descriptions) = true) by (vm_compute; reflexivity).
  rewrite Heq. split.
  - intros d. split; [apply lookup_method_In | apply In_lookup_method; exact Hd].
  - split.
    + intros Hnone Hin. apply in_map_iff in Hin as ([m d] & Hm & Hin).
      simpl in Hm. subst m.
      rewrite (In_lookup_method _ _ _ Hd Hin) in Hnone. discriminate.
    + intros Hnot. destruct (lookup_method all_descriptions name) as [d |] eqn:E;
        [| reflexivity].
      elim Hnot. apply in_map_iff. exists (name, d).
      split; [reflexivity | apply lookup_method_In; exact E].
Qed.

(* ================================================================== *)
(** ** The brace loop *)

Lemma brace_end_balance (h : string) (c : Z) (n : nat) :
  1 <= c -> brace_end h c = Some n ->
  nul_free (take n h) = true
  /\ (forall k, (k < n)%nat -> 0 < c + depth (take k h))
  /\ (c + depth (take n h) = 0
      \/ (0 < c + depth (take n h) /\ peek h n = Some NUL)).
Proof.
  revert c n. induction h as [| x h IH]; intros c n Hc H; [discriminate |].
  cbn [brace_end] in H.
  destruct (Ascii.eqb_spec x NUL) as [-> | Hnul].
  { injection H as <-. simpl. repeat split; [intros k Hk; lia | right; split; [lia | reflexivity]]. }
  assert (Hx : (x =? NUL)%char = false) by (apply Ascii.eqb_neq; exact Hnul).
  assert (Hstep : forall c' n',
             1 <= c' -> brace_end h c' = Some n' ->
             c' = c + (if (x =? LBRACE)%char then 1
                       else if (x =? RBRACE)%char then -1 else 0) ->
             nul_free (take (S n') (String x h)) = true
             /\ (forall k, (k < S n')%nat -> 0 < c + depth (take k (String x h)))
             /\ (c + depth (take (S n') (String x h)) = 0
                 \/ (0 < c + depth (take (S n') (String x h))
                     /\ peek (String x h) (S n') = Some NUL))).
  { intros c' n' Hc' Hn' Heq. destruct (IH c' n' Hc' Hn') as (Hfree & Hpos & Hend).
    cbn [take nul_free depth]. rewrite Hx, Hfree. split; [reflexivity | split].
    - intros [| k] Hk; [simpl; lia |]. cbn [take depth].
      specialize (Hpos k ltac:(lia)). lia.
    - change (peek (String x h) (S n')) with (peek h n').
      destruct Hend as [He | [He Hp]]; [left; lia | right; split; [lia | exact Hp]]. }
  destruct (x =? LBRACE)%char eqn:Hl.
  - destruct (brace_end h (c + 1)) as [n' |] eqn:Hn; [| discriminate].
    injection H as <-. apply (Hstep (c + 1) n'); [lia | exact Hn | reflexivity].
  - destruct (x =? RBRACE)%char eqn:Hr.
    + destruct (Z.eqb_spec (c - 1) 0) as [Hz | Hnz].
      * injection H as <-. cbn [take nul_free depth]. rewrite Hx, Hl, Hr.
        split; [reflexivity | split].
        -- intros [| k] Hk; [simpl; lia | lia].
        -- left. simpl. lia.
      * destruct (brace_end h (c - 1)) as [n' |] eqn:Hn; [| discriminate].
        injection H as <-. apply (Hstep (c - 1) n'); [lia | exact Hn | lia].
    + destruct (brace_end h c) as [n' |] eqn:Hn; [| discriminate].
      injection H as <-. apply (Hstep c n'); [lia | exact Hn | lia].
Qed.

(** X7: what the brace loop cuts out, started on an opening brace with a count
    of zero: the bytes up to [end] hold no NUL, every proper non-empty
    prefix of them has more opening than closing braces, and either they
    balance (the loop left on the closing brace that matches, braces inside
    string values counted like any other) or they do not and [end] is on the
    terminator. *)
Theorem brace_loop_shortest_balanced (h : string) (n : nat) :
  brace_end (String LBRACE h) 0 = Some n ->
  nul_free (take n (String LBRACE h)) = true
  /\ (forall k, (0 < k < n)%nat -> 0 < depth (take k (String LBRACE h)))
  /\ (depth (take n (String LBRACE h)) = 0
      \/ (0 < depth (take n (String LBRACE h))
          /\ peek (String LBRACE h) n = Some NUL)).
Proof.
  intros H. change (option_map S (brace_end h (0 + 1)) = Some n) in H.
  destruct (brace_end h (0 + 1)) as [n' |] eqn:Hn; [| discriminate].
  injection H as <-.
  destruct (brace_end_balance h 1 n' ltac:(lia) Hn) as (Hfree & Hpos & Hend).
  cbn [take nul_free depth]. change (LBRACE =? NUL)%char with false.
  change (LBRACE =? LBRACE)%char with true. cbv iota. split; [exact Hfree | split].
  - intros [| k] Hk; [lia |]. cbn [take depth].
    change (LBRACE =? LBRACE)%char with true. cbv iota. apply Hpos. lia.
  - change (peek (String LBRACE h) (S n')) with (peek h n'). exact Hend.
Qed.

Lemma brace_loop_shortest_balanced_witness :
  nul_free (take 19 (String LBRACE (json "'a':{'b':1},'c':2},'d':3}"))) = true
  /\ (forall k, (0 < k < 19)%nat ->
        0 < depth (take k (String LBRACE (json "'a':{'b':1},'c':2},'d':3}"))))
  /\ (depth (take 19 (String LBRACE (json "'a':{'b':1},'c':2},'d':3}"))) = 0
      \/ (0 < depth (take 19 (String LBRACE (json "'a':{'b':1},'c':2},'d':3}")))
          /\ peek (String LBRACE (json "'a':{'b':1},'c':2},'d':3}")) 19 = Some NUL)).
Proof.
  apply (brace_loop_shortest_balanced (json "'a':{'b':1},'c':2},'d':3}") 19).
  reflexivity.
Defined.

(* ================================================================== *)
(** ** The extractor as a function of the text *)

(** *** Suffixes and blocks *)

Lemma drop_drop (a b : nat) (s : string) : drop a (drop b s) = drop (b + a) s.
Proof.
  revert s. induction b as [| b IH]; intros s; [reflexivity |].
  destruct s as [| x s]; simpl; [apply drop_empty | apply IH].
Qed.

Lemma length_drop (p : nat) (s : string) :
  String.length (drop p s) = (String.length s - p)%nat.
Proof.
  revert s. induction p as [| p IH]; intros s; simpl; [lia |].
  destruct s as [| x s]; simpl; [reflexivity | apply IH].
Qed.

Lemma drop_next (p : nat) (t s : string) (x : ascii) :
  drop p t = String x s -> drop (S p) t = s /\ (S p <= String.length t)%nat.
Proof.
  revert t. induction p as [| p IH]; intros t H.
  - simpl in H. subst t. simpl. split; [reflexivity | lia].
  - destruct t as [| y t]; [discriminate |]. simpl in H.
    destruct (IH t H) as [Hd Hl]. split; [exact Hd | simpl; lia].
Qed.

Lemma drop_lt (p : nat) (t : string) :
  (p < String.length t)%nat -> exists x, drop p t = String x (drop (S p) t).
Proof.
  revert t. induction p as [| p IH]; intros t H.
  - destruct t as [| x t]; [simpl in H; lia |]. exists x. reflexivity.
  - destruct t as [| y t]; [simpl in H; lia |]. simpl in H.
    destruct (IH t ltac:(lia)) as [x Hx]. exists x. exact Hx.
Qed.

Lemma drop_all (p : nat) (t : string) :
  (String.length t <= p)%nat -> drop p t = EmptyString.
Proof.
  revert t. induction p as [| p IH]; intros t H.
  - destruct t; [reflexivity | simpl in H; lia].
  - destruct t as [| y t]; [reflexivity |]. simpl in *. apply IH. lia.
Qed.

Lemma drop_c_string (p : nat) (t : string) :
  (p <= String.length t)%nat -> drop p (c_string t) = c_string (drop p t).
Proof.
  revert t. induction p as [| p IH]; intros t H; [reflexivity |].
  destruct t as [| x t]; [simpl in H; lia |].
  simpl in H. apply (IH t). lia.
Qed.

Lemma nul_free_drop (p : nat) (t : string) :
  nul_free t = true -> nul_free (drop p t) = true.
Proof.
  revert t. induction p as [| p IH]; intros t H; [exact H |].
  destruct t as [| x t]; [reflexivity |].
  cbn [nul_free] in H. apply andb_true_iff in H as [_ H]. apply (IH t H).
Qed.

Lemma nul_free_take (n : nat) (t : string) :
  nul_free t = true -> nul_free (take n t) = true.
Proof.
  revert t. induction n as [| n IH]; intros t H; [reflexivity |].
  destruct t as [| x t]; [reflexivity |].
  cbn [nul_free take] in *. apply andb_true_iff in H as [Hx H].
  rewrite Hx, (IH t H). reflexivity.
Qed.

Lemma take_c_string (n : nat) (t : string) :
  (n <= String.length t)%nat -> take n (c_string t) = take n t.
Proof.
  revert t. induction n as [| n IH]; intros t H; [reflexivity |].
  destruct t as [| x t]; [simpl in H; lia |].
  change (c_string (String x t)) with (String x (c_string t)).
  cbn [take]. f_equal. apply IH. simpl in H. lia.
Qed.

Lemma length_c_string (t : string) :
  String.length (c_string t) = S (String.length t).
Proof. induction t as [| x t IH]; simpl; [reflexivity | f_equal; exact IH]. Qed.

Lemma peek_c_string (p : nat) (t : string) :
  (p <= String.length t)%nat ->
  peek (c_string t) p
  = Some match drop p t with
         | EmptyString => NUL
         | String x _ => x
         end.
Proof.
  revert t. induction p as [| p IH]; intros t H.
  - destruct t; reflexivity.
  - destruct t as [| x t]; [simpl in H; lia |]. simpl in H.
    change (peek (c_string (String x t)) (S p)) with (peek (c_string t) p).
    apply IH. lia.
Qed.

Lemma poke_total (h : block) (n : nat) (c : ascii) :
  (n < String.length h)%nat -> exists b1, poke h n c = Some b1.
Proof.
  revert n. induction h as [| x h IH]; intros n H; [simpl in H; lia |].
  destruct n as [| n]; cbn [poke]; [eauto |].
  destruct (IH n ltac:(simpl in H; lia)) as [r Hr]. rewrite Hr. simpl. eauto.
Qed.

Lemma poke_drop (b b1 : block) (p n : nat) (c : ascii) :
  poke b (p + n) c = Some b1 -> poke (drop p b) n c = Some (drop p b1).
Proof.
  revert b b1. induction p as [| p IH]; intros b b1 H; [exact H |].
  destruct b as [| x b]; [discriminate |].
  cbn [Nat.add poke] in H.
  destruct (poke b (p + n) c) as [r |] eqn:Hr; [| discriminate].
  simpl in H. injection H as <-. simpl. apply IH. exact Hr.
Qed.

(** Cutting a string at [n]: with a NUL written there, the text of the block
    is its first [n] bytes. *)
Lemma c_text_cut (h b1 : block) (n : nat) :
  nul_free (take n h) = true -> poke h n NUL = Some b1 ->
  c_text b1 = Some (take n h).
Proof.
  revert n b1. induction h as [| x h IH]; intros n b1 Hfree H; [discriminate |].
  destruct n as [| n]; cbn [poke] in H.
  - injection H as <-. reflexivity.
  - destruct (poke h n NUL) as [r |] eqn:Hr; [| discriminate].
    simpl in H. injection H as <-.
    cbn [take nul_free] in Hfree. apply andb_true_iff in Hfree as [Hx Hfree].
    apply negb_true_iff in Hx. cbn [c_text take]. rewrite Hx.
    rewrite (IH n r Hfree Hr). reflexivity.
Qed.

(** *** The library scans on a terminated text *)

Lemma starts_with_is_prefix (key t : string) :
  nul_free key = true ->
  starts_with key (c_string t) = if is_prefix key t then Hit tt else Miss.
Proof.
  revert t. induction key as [| k key IH]; intros t Hkey; [reflexivity |].
  cbn [nul_free] in Hkey. apply andb_true_iff in Hkey as [Hk Hkey].
  apply negb_true_iff in Hk.
  destruct t as [| c t].
  - cbn [c_string append starts_with is_prefix].
    rewrite Ascii.eqb_sym, Hk. reflexivity.
  - change (c_string (String c t)) with (String c (c_string t)).
    cbn [starts_with is_prefix]. destruct (c =? k)%char; [apply IH; exact Hkey | reflexivity].
Qed.

Lemma c_strstr_find (key t : string) :
  nul_free key = true -> nul_free t = true ->
  match c_strstr key (c_string t) with
  | Hit k => (k <= String.length t)%nat /\ find key t = Some (drop k t)
  | Miss => find key t = None
  | Oob => False
  end.
Proof.
  intros Hkey. induction t as [| c t IH]; intros Hfree.
  - pose proof (starts_with_is_prefix key EmptyString Hkey) as Hs.
    change (c_string EmptyString) with (String NUL EmptyString) in *.
    cbn [c_strstr find]. rewrite Hs.
    destruct (is_prefix key EmptyString); [split; [simpl; lia | reflexivity] |].
    reflexivity.
  - cbn [nul_free] in Hfree. apply andb_true_iff in Hfree as [Hc Hfree].
    apply negb_true_iff in Hc. specialize (IH Hfree).
    pose proof (starts_with_is_prefix key (String c t) Hkey) as Hs.
    change (c_string (String c t)) with (String c (c_string t)) in *.
    cbn [c_strstr find]. rewrite Hs.
    destruct (is_prefix key (String c t)); [split; [simpl; lia | reflexivity] |].
    rewrite Hc. destruct (c_strstr key (c_string t)) as [k | |]; cbn [shift].
    + destruct IH as [Hk Hf]. split; [simpl; lia | exact Hf].
    + exact IH.
    + exact IH.
Qed.

Lemma c_strchr_find_char (c : ascii) (t : string) :
  (c =? NUL)%char = false -> nul_free t = true ->
  match c_strchr c (c_string t) with
  | Hit n => (n < String.length t)%nat /\ find_char c t = Some (drop n t)
             /\ before c t = Some (take n t)
  | Miss => find_char c t = None /\ before c t = None
  | Oob => False
  end.
Proof.
  intros Hc. induction t as [| x t IH]; intros Hfree.
  - cbn [c_string append c_strchr]. rewrite Ascii.eqb_sym, Hc.
    change (NUL =? NUL)%char with true. cbv iota. split; reflexivity.
  - cbn [nul_free] in Hfree. apply andb_true_iff in Hfree as [Hx Hfree].
    apply negb_true_iff in Hx. specialize (IH Hfree).
    change (c_string (String x t)) with (String x (c_string t)).
    cbn [c_strchr find_char before].
    destruct (x =? c)%char; [repeat split; simpl; lia |].
    rewrite Hx. destruct (c_strchr c (c_string t)) as [n | |]; cbn [shift].
    + destruct IH as (Hn & Hf & Hb). rewrite Hb. repeat split; [simpl; lia | exact Hf].
    + destruct IH as [Hf Hb]. rewrite Hb. split; [exact Hf | reflexivity].
    + exact IH.
Qed.

Lemma skip_blanks_skip_ws (t : string) :
  match skip_blanks (c_string t) with
  | Some w => (w <= String.length t)%nat /\ skip_ws t = drop w t
  | None => False
  end.
Proof.
  induction t as [| x t IH].
  - cbn. split; [lia | reflexivity].
  - change (c_string (String x t)) with (String x (c_string t)).
    cbn [skip_blanks skip_ws].
    destruct ((x =? SPACE) || (x =? TAB))%char; [| split; [lia | reflexivity]].
    destruct (skip_blanks (c_string t)) as [w |]; [| exact IH].
    destruct IH as [Hw Hs]. cbn [option_map]. split; [simpl; lia | exact Hs].
Qed.

Lemma id_end_numeric_text (t : string) :
  nul_free t = true ->
  match id_end (c_string t) with
  | Some n => (n <= String.length t)%nat /\ numeric_text t = take n t
              /\ (n = 0%nat <-> numeric_text t = EmptyString)
  | None => False
  end.
Proof.
  induction t as [| x t IH]; intros Hfree.
  - cbn. repeat split; auto.
  - cbn [nul_free] in Hfree. apply andb_true_iff in Hfree as [Hx Hfree].
    apply negb_true_iff in Hx. specialize (IH Hfree).
    change (c_string (String x t)) with (String x (c_string t)).
    cbn [id_end numeric_text]. rewrite Hx. cbn [orb].
    destruct ((x =? COMMA) || (x =? RBRACE))%char.
    + repeat split; auto; lia.
    + destruct (id_end (c_string t)) as [n |]; [| exact IH].
      destruct IH as (Hn & Ht & _). cbn [option_map take].
      rewrite Ht. repeat split; [simpl; lia | discriminate | discriminate].
Qed.

Lemma value_offset_value_text (key t : string) :
  nul_free key = true -> nul_free t = true ->
  match value_offset key (c_string t) with
  | Hit pos => (pos <= String.length t)%nat /\ value_text key t = Some (drop pos t)
  | Miss => value_text key t = None
  | Oob => False
  end.
Proof.
  intros Hkey Hfree. unfold value_offset, value_text.
  pose proof (c_strstr_find key t Hkey Hfree) as Hk.
  destruct (c_strstr key (c_string t)) as [k | |]; [| rewrite Hk; reflexivity | exact Hk].
  destruct Hk as [Hk Hf]. rewrite Hf, (drop_c_string k t Hk).
  pose proof (c_strchr_find_char COLON (drop k t) eq_refl (nul_free_drop k t Hfree)) as Hc.
  destruct (c_strchr COLON (c_string (drop k t))) as [c | |];
    [| destruct Hc as [Hc _]; rewrite Hc; reflexivity | exact Hc].
  destruct Hc as (Hc & Hfc & _). rewrite Hfc.
  rewrite length_drop in Hc.
  destruct (drop_lt c (drop k t) ltac:(rewrite length_drop; lia)) as [x Hx].
  rewrite Hx, drop_drop.
  replace (k + S c)%nat with (S (k + c)) by lia.
  rewrite (drop_c_string (S (k + c)) t) by lia.
  pose proof (skip_blanks_skip_ws (drop (S (k + c)) t)) as Hw.
  destruct (skip_blanks (c_string (drop (S (k + c)) t))) as [w |]; [| exact Hw].
  destruct Hw as [Hw Hs]. rewrite length_drop in Hw.
  rewrite Hs, drop_drop. split; [lia | reflexivity].
Qed.

(** *** A field's commands on a terminated copy *)

(** Cutting the value out of the copy and putting the byte back: the two
    writes and the copy in between, at [n] bytes from [p]. *)
Lemma cut_run (t : string) (p n : nat) (c : ascii) :
  nul_free t = true -> (p + n <= String.length t)%nat ->
  exists b1,
    poke (c_string t) (p + n) NUL = Some b1
    /\ c_text (drop p b1) = Some (take n (drop p t))
    /\ exists b2, poke b1 (p + n) c = Some b2
                  /\ poke (c_string t) (p + n) c = Some b2.
Proof.
  intros Hfree Hle.
  assert (He : (p + n < String.length (c_string t))%nat)
    by (rewrite length_c_string; lia).
  destruct (poke_total (c_string t) (p + n) NUL He) as [b1 Hp1].
  exists b1. split; [exact Hp1 | split].
  - pose proof (poke_drop _ _ _ _ _ Hp1) as Hd.
    rewrite (drop_c_string p t ltac:(lia)) in Hd.
    assert (Hn : (n <= String.length (drop p t))%nat) by (rewrite length_drop; lia).
    rewrite (c_text_cut _ _ n ltac:(rewrite take_c_string by exact Hn;
                                    apply nul_free_take, nul_free_drop; exact Hfree) Hd).
    rewrite take_c_string by exact Hn. reflexivity.
  - destruct (poke_total b1 (p + n) c) as [b2 Hp2].
    { rewrite (length_poke _ _ _ _ Hp1). exact He. }
    exists b2. split; [exact Hp2 | exact (poke_poke _ _ _ _ _ _ Hp1 Hp2)].
Qed.

Lemma poke_same (b : block) (e : nat) (c : ascii) :
  peek b e = Some c -> poke b e c = Some b.
Proof.
  revert e. induction b as [| x b IH]; intros e H; [destruct e; discriminate |].
  destruct e as [| e]; cbn [poke].
  - simpl in H. injection H as ->. reflexivity.
  - rewrite (IH e H). reflexivity.
Qed.

Lemma quoted_value_run (pos : nat) set (t s : string) (d : mcp_json_data_t) :
  nul_free t = true -> drop pos t = String DQUOTE s ->
  quoted_value pos set (mk_machine (c_string t) d)
  = (Some tt, mk_machine (c_string t)
                (match before DQUOTE s with
                 | Some v => set v d
                 | None => d
                 end)).
Proof.
  intros Hfree Hs. destruct (drop_next pos t s DQUOTE Hs) as [Hnext Hle].
  assert (Hfs : nul_free s = true)
    by (rewrite <- Hnext; apply nul_free_drop; exact Hfree).
  unfold quoted_value. cbv zeta. unfold bind at 1. unfold strchr, reading.
  cbn [json_copy]. rewrite (drop_c_string (S pos) t Hle), Hnext.
  pose proof (c_strchr_find_char DQUOTE s eq_refl Hfs) as Hc.
  destruct (c_strchr DQUOTE (c_string s)) as [n | |] eqn:Hn; [| | contradiction].
  - destruct Hc as (Hlt & _ & Hb). rewrite Hb. cbn [of_scan ret when_found].
    assert (Hle' : (S pos + n <= String.length t)%nat).
    { rewrite <- Hnext, length_drop in Hlt. lia. }
    destruct (cut_run t (S pos) n DQUOTE Hfree Hle')
      as (b1 & Hp1 & Htext & b2 & Hp2 & Hp).
    rewrite Hnext in Htext.
    assert (Hpeek : peek (c_string t) (S pos + n) = Some DQUOTE).
    { rewrite <- peek_drop, (drop_c_string (S pos) t Hle), Hnext.
      apply c_strchr_peek. exact Hn. }
    rewrite (poke_same _ _ _ Hpeek) in Hp. injection Hp as <-.
    unfold bind, store, wmem_strdup, reading, assign, of_option, ret.
    cbn [json_copy data]. rewrite Hp1. cbn [json_copy data].
    rewrite Htext. cbn [json_copy data]. rewrite Hp2. reflexivity.
  - destruct Hc as [_ Hb]. rewrite Hb. reflexivity.
Qed.

(** A string field on a terminated copy: the run stays inside the copy,
    leaves it as it was, and stores what [string_field] reads in the
    text. *)
Lemma extract_string_run (key : string) set (t : string) (d : mcp_json_data_t) :
  nul_free key = true -> nul_free t = true ->
  extract_string key set (mk_machine (c_string t) d)
  = (Some tt, mk_machine (c_string t)
                (match string_field key t with
                 | Some v => set v d
                 | None => d
                 end)).
Proof.
  intros Hkey Hfree. unfold extract_string, string_field.
  unfold bind at 1. rewrite value_position_run. cbn [json_copy].
  pose proof (value_offset_value_text key t Hkey Hfree) as Hv.
  destruct (value_offset key (c_string t)) as [pos | |]; [| | contradiction].
  - destruct Hv as [Hpos Hv]. rewrite Hv. cbn [of_scan ret when_found].
    change (0 + pos)%nat with pos.
    unfold bind at 1. unfold load, reading. cbn [json_copy].
    rewrite (peek_c_string pos t Hpos). cbn [of_option ret].
    destruct (drop pos t) as [| x s] eqn:Hs; [reflexivity |].
    destruct (Ascii.eqb_spec x DQUOTE) as [-> | _]; [| reflexivity].
    apply quoted_value_run; assumption.
  - rewrite Hv. reflexivity.
Qed.

(** The id field on a terminated copy: the run stays inside the copy and
    stores what [id_field] reads in the text; the copy is as it was unless
    the value was taken as a number. *)
Lemma extract_id_run (t : string) (d : mcp_json_data_t) :
  nul_free t = true ->
  exists b,
    extract_id (mk_machine (c_string t) d)
    = (Some tt, mk_machine b
                  (match id_field t with
                   | Some v => set_id v d
                   | None => d
                   end))
    /\ ((value_text (quoted "id") t = None
         \/ exists s, value_text (quoted "id") t = Some (String DQUOTE s)) ->
        b = c_string t).
Proof.
  intros Hfree. unfold extract_id, id_field.
  unfold bind at 1. rewrite value_position_run. cbn [json_copy].
  pose proof (value_offset_value_text (quoted "id") t eq_refl Hfree) as Hv.
  destruct (value_offset (quoted "id") (c_string t)) as [pos | |]; [| | contradiction].
  2:{ rewrite Hv. exists (c_string t). split; [reflexivity | auto]. }
  destruct Hv as [Hpos Hv]. rewrite Hv. cbn [of_scan ret when_found].
  change (0 + pos)%nat with pos.
  unfold bind at 1. unfold load, reading. cbn [json_copy].
  rewrite (peek_c_string pos t Hpos). cbn [of_option ret].
  destruct (drop pos t) as [| x s] eqn:Hs.
  - (* the value position is the terminator *)
    change (NUL =? DQUOTE)%char with false. cbv iota zeta.
    unfold bind at 1. unfold numeric_end, reading. cbn [json_copy].
    rewrite (drop_c_string pos t Hpos), Hs.
    cbn [c_string append id_end option_map of_option ret].
    change (NUL =? NUL)%char with true. cbn [orb option_map of_option ret].
    rewrite Nat.add_0_r, Nat.ltb_irrefl.
    exists (c_string t). split; [reflexivity | auto].
  - destruct (Ascii.eqb_spec x DQUOTE) as [-> | Hx].
    { exists (c_string t). split; [apply quoted_value_run; assumption | auto]. }
    cbv zeta. unfold bind at 1. unfold numeric_end, reading. cbn [json_copy].
    rewrite (drop_c_string pos t Hpos), Hs.
    pose proof (id_end_numeric_text (String x s)
                  ltac:(rewrite <- Hs; apply nul_free_drop; exact Hfree)) as Hn.
    destruct (id_end (c_string (String x s))) as [n |]; [| contradiction].
    destruct Hn as (Hn & Htext & Hzero). cbn [option_map of_option ret].
    assert (Hlen : (pos + n <= String.length t)%nat).
    { rewrite <- Hs, length_drop in Hn. lia. }
    destruct (Nat.ltb_spec pos (pos + n)) as [Hlt | Hge].
    + destruct (cut_run t pos n RBRACE Hfree Hlen)
        as (b1 & Hp1 & Hcopy & b2 & Hp2 & _).
      rewrite Hs, <- Htext in Hcopy.
      exists b2. split.
      * unfold bind, store, wmem_strdup, load, reading, assign, of_option, ret.
        cbn [json_copy data]. rewrite Hp1. cbn [json_copy data].
        rewrite Hcopy. cbn [json_copy data].
        rewrite (peek_poke _ _ _ _ Hp1).
        change (NUL =? COMMA)%char with false. cbv iota.
        cbn [json_copy data]. rewrite Hp2.
        destruct (numeric_text (String x s)) as [| y v] eqn:Hv';
          [destruct Hzero as [_ Hz]; specialize (Hz eq_refl); lia | reflexivity].
      * intros [Hnone | (s' & Hsome)]; [discriminate |].
        injection Hsome as Hx' _. elim Hx. exact Hx'.
    + assert (n = 0%nat) as -> by lia.
      destruct Hzero as [Hz _]. rewrite (Hz eq_refl).
      exists (c_string t). split; [reflexivity | auto].
Qed.

(** *** The fields that come first *)

Lemma preserves_fields_after_id (I : mcp_json_data_t -> Prop) :
  (forall d, I d -> I (set_encrypted d)) ->
  (forall v d, I d -> I (set_ciphertext v d)) ->
  (forall v d, I d -> I (set_iv v d)) ->
  (forall v d, I d -> I (set_ratchet_header v d)) ->
  (forall v d, I d -> I (set_params v d)) ->
  (forall v d, I d -> I (set_agent_id v d)) ->
  (forall v d, I d -> I (set_result v d)) ->
  (forall v d, I d -> I (set_error_code v d)) ->
  (forall v d, I d -> I (set_error_message v d)) ->
  preserves I fields_after_id.
Proof.
  intros He Hc Hi Hr Hp Ha Hres Hcode Hm. unfold fields_after_id.
  repeat (apply preserves_bind; [| intros _]).
  - unfold extract_encryption. frame.
    + apply preserves_extract_string. exact Hc.
    + apply preserves_extract_string. exact Hi.
    + apply preserves_extract_object; [exact Hr | intros v; frame].
  - apply preserves_extract_object; [exact Hp | intros v].
    apply preserves_agent_id_from_params. exact Ha.
  - apply preserves_extract_object; [exact Hres | intros v; frame].
  - apply preserves_extract_error_code. exact Hcode.
  - apply preserves_extract_string. exact Hm.
Qed.

Lemma parse_fields_leading (t : string) :
  nul_free t = true ->
  exists b,
    parse_fields (mk_machine (c_string t) zero_data)
    = fields_after_id
        (mk_machine b
           (mk_data (string_field (quoted "jsonrpc") t)
              (string_field (quoted "method") t) (id_field t)
              None None 0 None None false None None None))
    /\ ((value_text (quoted "id") t = None
         \/ exists s, value_text (quoted "id") t = Some (String DQUOTE s)) ->
        b = c_string t).
Proof.
  intros Hfree. unfold parse_fields.
  unfold bind at 1.
  rewrite (extract_string_run (quoted "jsonrpc") set_jsonrpc t _ eq_refl Hfree).
  cbv beta iota. unfold bind at 1.
  rewrite (extract_string_run (quoted "method") set_method t _ eq_refl Hfree).
  cbv beta iota.
  unfold bind at 1.
  destruct (extract_id_run t
              (match string_field (quoted "method") t with
               | Some v =>
                   set_method v
                     (match string_field (quoted "jsonrpc") t with
                      | Some v0 => set_jsonrpc v0 zero_data
                      | None => zero_data
                      end)
               | None =>
                   match string_field (quoted "jsonrpc") t with
                   | Some v0 => set_jsonrpc v0 zero_data
                   | None => zero_data
                   end
               end) Hfree) as (b & Hrun & Hb).
  rewrite Hrun. cbv beta iota. exists b. split; [| exact Hb].
  unfold fields_after_id. f_equal. f_equal.
  destruct (string_field (quoted "jsonrpc") t), (string_field (quoted "method") t),
    (id_field t); reflexivity.
Qed.

(** X8: the three leading fields are functions of the text alone.  For every
    text without a NUL, jsonrpc and method are the string the text holds at
    the first occurrence of their key (after the next colon and blanks, from
    the opening quote to the next quote), unset when the key, the colon, the
    opening quote or the closing quote is missing; id is that string, or
    else the bytes up to the next comma or closing brace when there are any.
    Nothing that is extracted later changes them. *)
Theorem extract_leading_fields (text : string) :
  nul_free text = true ->
  jsonrpc (extract text) = string_field (quoted "jsonrpc") text
  /\ method (extract text) = string_field (quoted "method") text
  /\ id (extract text) = id_field text.
Proof.
  intros Hfree. unfold extract, parse_json_rpc.
  rewrite (c_text_c_string text Hfree).
  destruct (parse_fields_leading text Hfree) as (b & Hrun & _). rewrite Hrun.
  apply (preserves_fields_after_id
           (leading_fields (string_field (quoted "jsonrpc") text)
              (string_field (quoted "method") text) (id_field text)));
    try (intros; assumption).
  repeat split.
Qed.

Lemma extract_leading_fields_witness :
  jsonrpc (extract (json "{'id': 42 ,'jsonrpc' : '2.0','method':'a'}"))
  = string_field (quoted "jsonrpc") (json "{'id': 42 ,'jsonrpc' : '2.0','method':'a'}")
  /\ method (extract (json "{'id': 42 ,'jsonrpc' : '2.0','method':'a'}"))
     = string_field (quoted "method") (json "{'id': 42 ,'jsonrpc' : '2.0','method':'a'}")
  /\ id (extract (json "{'id': 42 ,'jsonrpc' : '2.0','method':'a'}"))
     = id_field (json "{'id': 42 ,'jsonrpc' : '2.0','method':'a'}").
Proof.
  apply (extract_leading_fields (json "{'id': 42 ,'jsonrpc' : '2.0','method':'a'}")).
  reflexivity.
Defined.

(** What the functions of the text give on that message: the number is kept
    with the blank that follows it. *)
Example leading_fields_sample :
  string_field (quoted "jsonrpc") (json "{'id': 42 ,'jsonrpc' : '2.0','method':'a'}")
  = Some "2.0"
  /\ id_field (json "{'id': 42 ,'jsonrpc' : '2.0','method':'a'}") = Some "42 ".
Proof. vm_compute. split; reflexivity. Qed.

(** *** Requests *)

Lemma plain_cons (c : ascii) (v : string) :
  plain (String c v) = true ->
  (c =? DQUOTE)%char = false /\ (c =? NUL)%char = false /\ plain v = true.
Proof.
  cbn [plain]. intros H. apply andb_true_iff in H as [Hc Hv].
  apply negb_true_iff in Hc. apply orb_false_iff in Hc as [Hq Hn]. auto.
Qed.

Lemma plain_nul_free (v : string) : plain v = true -> nul_free v = true.
Proof.
  induction v as [| c v IH]; intros H; [reflexivity |].
  apply plain_cons in H as (_ & Hn & Hv). cbn [nul_free]. rewrite Hn, (IH Hv). reflexivity.
Qed.

Lemma nul_free_app (a b : string) :
  nul_free (a ++ b) = nul_free a && nul_free b.
Proof.
  induction a as [| c a IH]; [reflexivity |].
  cbn [append nul_free]. rewrite IH. apply andb_assoc.
Qed.

Lemma before_plain (v r : string) :
  plain v = true -> before DQUOTE (v ++ String DQUOTE r) = Some v.
Proof.
  induction v as [| c v IH]; intros H; [reflexivity |].
  apply plain_cons in H as (Hq & _ & Hv).
  cbn [append before]. rewrite Hq, (IH Hv). reflexivity.
Qed.

Lemma is_prefix_value (name v r : string) :
  plain name = true -> plain v = true ->
  is_prefix (name ++ String DQUOTE EmptyString) (v ++ String DQUOTE r)
  = String.eqb name v.
Proof.
  revert v. induction name as [| k name IH]; intros v Hname Hv.
  - destruct v as [| c v]; [reflexivity |].
    apply plain_cons in Hv as (Hq & _ & _). cbn [append is_prefix String.eqb].
    rewrite Hq. reflexivity.
  - apply plain_cons in Hname as (Hkq & _ & Hname).
    destruct v as [| c v].
    + cbn [append is_prefix String.eqb]. rewrite Ascii.eqb_sym, Hkq. reflexivity.
    + apply plain_cons in Hv as (_ & _ & Hv).
      cbn [append is_prefix String.eqb]. rewrite (IH v Hname Hv).
      rewrite (Ascii.eqb_sym c k). destruct (k =? c)%char; reflexivity.
Qed.

Lemma find_skip_plain (name v s : string) :
  plain v = true -> find (quoted name) (v ++ s) = find (quoted name) s.
Proof.
  induction v as [| c v IH]; intros H; [reflexivity |].
  apply plain_cons in H as (Hq & _ & Hv).
  cbn [append find]. unfold quoted at 1. cbn [is_prefix]. rewrite Hq. cbn [andb].
  apply IH. exact Hv.
Qed.

Lemma find_skip_value (name v r : string) :
  plain name = true -> plain v = true -> String.eqb name v = false ->
  find (quoted name) (String DQUOTE (v ++ String DQUOTE r))
  = find (quoted name) (String DQUOTE r).
Proof.
  intros Hname Hv Hne. cbn [find]. unfold quoted at 1. cbn [is_prefix].
  rewrite (is_prefix_value name v r Hname Hv), Hne, andb_false_r.
  apply find_skip_plain. exact Hv.
Qed.

Lemma find_skip_char (key s : string) (c : ascii) :
  is_prefix key (String c s) = false -> find key (String c s) = find key s.
Proof. intros H. cbn [find]. rewrite H. reflexivity. Qed.

Lemma find_here (key s : string) : is_prefix key s = true -> find key s = Some s.
Proof. intros H. destruct s; cbn [find]; rewrite H; reflexivity. Qed.

Lemma find_end (key : string) : is_prefix key EmptyString = false -> find key EmptyString = None.
Proof. intros H. cbn [find]. rewrite H. reflexivity. Qed.

Lemma not_a_key_neq (v name : string) :
  not_a_key v = true -> In name tracked_names -> String.eqb name v = false.
Proof.
  unfold not_a_key. intros H Hin. apply negb_true_iff in H.
  destruct (String.eqb_spec name v) as [-> | _]; [| reflexivity].
  assert (Ht : existsb (String.eqb v) tracked_names = true).
  { apply existsb_exists. exists v. split; [exact Hin | apply String.eqb_refl]. }
  congruence.
Qed.

(** Writes a request out byte by byte. *)
Ltac request_text :=
  unfold request;
  repeat match goal with
    | |- context [json ?l] =>
        let r := eval vm_compute in (json l) in change (json l) with r
    end;
  cbn [append].

(** Follows [find] for a key along a request. *)
Ltac scan_key name :=
  repeat first
    [ rewrite (find_skip_value name) by (first [reflexivity | assumption | (apply not_a_key_neq; [assumption | simpl; tauto])])
    | rewrite (find_skip_char (quoted name)) by reflexivity
    | rewrite (find_end (quoted name)) by reflexivity
    | rewrite (find_here (quoted name)) by reflexivity ].

Lemma find_char_skip (c x : ascii) (s : string) :
  (x =? c)%char = false -> find_char c (String x s) = find_char c s.
Proof. intros H. cbn [find_char]. rewrite H. reflexivity. Qed.

Lemma find_char_here (c x : ascii) (s : string) :
  (x =? c)%char = true -> find_char c (String x s) = Some (String x s).
Proof. intros H. cbn [find_char]. rewrite H. reflexivity. Qed.

Lemma skip_ws_here (x : ascii) (s : string) :
  ((x =? SPACE) || (x =? TAB))%char = false -> skip_ws (String x s) = String x s.
Proof. intros H. cbn [skip_ws]. rewrite H. reflexivity. Qed.

(** Follows [value_text] once the key is found. *)
Ltac to_value :=
  repeat rewrite find_char_skip by reflexivity;
  rewrite find_char_here by reflexivity;
  rewrite skip_ws_here by reflexivity.

Lemma string_field_at (key t s : string) :
  value_text key t = Some (String DQUOTE s) -> string_field key t = before DQUOTE s.
Proof. unfold string_field. intros ->. reflexivity. Qed.

Lemma id_field_at (t s : string) :
  value_text (quoted "id") t = Some (String DQUOTE s) -> id_field t = before DQUOTE s.
Proof. unfold id_field. intros ->. reflexivity. Qed.

Lemma value_text_absent (key t : string) : find key t = None -> value_text key t = None.
Proof. unfold value_text. intros ->. reflexivity. Qed.

Lemma value_offset_absent (key t : string) :
  nul_free key = true -> nul_free t = true -> find key t = None ->
  value_offset key (c_string t) = Miss.
Proof.
  intros Hkey Hfree Hnone.
  pose proof (value_offset_value_text key t Hkey Hfree) as Hv.
  rewrite (value_text_absent key t Hnone) in Hv.
  destruct (value_offset key (c_string t)) as [pos | |];
    [destruct Hv; discriminate | reflexivity | contradiction].
Qed.

(** A field whose key is not in the copy leaves copy and record alone. *)
Lemma extract_encryption_absent (m : machine) :
  value_offset (quoted "encrypted") (json_copy m) = Miss ->
  extract_encryption m = (Some tt, m).
Proof.
  intros H. unfold extract_encryption. unfold bind at 1.
  rewrite value_position_run, H. reflexivity.
Qed.

Lemma extract_object_absent key set after (m : machine) :
  value_offset key (json_copy m) = Miss ->
  extract_object key set after m = (Some tt, m).
Proof.
  intros H. unfold extract_object. unfold bind at 1.
  rewrite value_position_run, H. reflexivity.
Qed.

Lemma extract_error_code_absent (m : machine) :
  value_offset (quoted "code") (json_copy m) = Miss ->
  extract_error_code m = (Some tt, m).
Proof.
  intros H. unfold extract_error_code. unfold bind at 1.
  rewrite value_position_run, H. reflexivity.
Qed.

Lemma string_field_absent (key t : string) :
  find key t = None -> string_field key t = None.
Proof. unfold string_field. intros H. rewrite (value_text_absent key t H). reflexivity. Qed.

(** What the text of a request holds for each key. *)
Lemma request_text_fields (v m i : string) :
  plain v = true -> plain m = true -> plain i = true ->
  not_a_key v = true -> not_a_key m = true -> not_a_key i = true ->
  nul_free (request v m i) = true
  /\ string_field (quoted "jsonrpc") (request v m i) = Some v
  /\ string_field (quoted "method") (request v m i) = Some m
  /\ id_field (request v m i) = Some i
  /\ (exists s, value_text (quoted "id") (request v m i) = Some (String DQUOTE s))
  /\ find (quoted "encrypted") (request v m i) = None
  /\ find (quoted "params") (request v m i) = None
  /\ find (quoted "result") (request v m i) = None
  /\ find (quoted "code") (request v m i) = None
  /\ find (quoted "message") (request v m i) = None.
Proof.
  intros Hv Hm Hi Kv Km Ki.
  split.
  { unfold request. rewrite !nul_free_app.
    rewrite (plain_nul_free v Hv), (plain_nul_free m Hm), (plain_nul_free i Hi).
    reflexivity. }
  split.
  { erewrite string_field_at; [apply before_plain; exact Hv |].
    unfold value_text. request_text. scan_key "jsonrpc". to_value. reflexivity. }
  split.
  { erewrite string_field_at; [apply before_plain; exact Hm |].
    unfold value_text. request_text. scan_key "method". to_value. reflexivity. }
  assert (Hid : exists r, value_text (quoted "id") (request v m i)
                          = Some (String DQUOTE (i ++ String DQUOTE r))).
  { unfold value_text. request_text. scan_key "id". to_value. eexists. reflexivity. }
  split.
  { destruct Hid as [r Hid]. rewrite (id_field_at _ _ Hid). apply before_plain. exact Hi. }
  split; [destruct Hid as [r Hid]; eexists; exact Hid |].
  repeat split.
  - request_text. scan_key "encrypted". reflexivity.
  - request_text. scan_key "params". reflexivity.
  - request_text. scan_key "result". reflexivity.
  - request_text. scan_key "code". reflexivity.
  - request_text. scan_key "message". reflexivity.
Qed.

Lemma parse_request (v m i : string) :
  plain v = true -> plain m = true -> plain i = true ->
  not_a_key v = true -> not_a_key m = true -> not_a_key i = true ->
  parse_json_rpc (c_string (request v m i)) zero_data
  = (Some tt,
     mk_machine (c_string (request v m i))
       (mk_data (Some v) (Some m) (Some i) None None 0 None None false
          None None None)).
Proof.
  intros Hv Hm Hi Kv Km Ki.
  destruct (request_text_fields v m i Hv Hm Hi Kv Km Ki)
    as (Hfree & Hj & Hme & Hid & Hq & He & Hp & Hr & Hc & Hmsg).
  unfold parse_json_rpc. rewrite (c_text_c_string _ Hfree).
  destruct (parse_fields_leading _ Hfree) as (b & Hrun & Hb).
  rewrite Hrun, (Hb (or_intror Hq)), Hj, Hme, Hid.
  unfold fields_after_id.
  unfold bind at 1.
  rewrite extract_encryption_absent
    by (apply value_offset_absent; [reflexivity | exact Hfree | exact He]).
  cbv beta iota. unfold bind at 1.
  rewrite extract_object_absent
    by (apply value_offset_absent; [reflexivity | exact Hfree | exact Hp]).
  cbv beta iota. unfold bind at 1.
  rewrite extract_object_absent
    by (apply value_offset_absent; [reflexivity | exact Hfree | exact Hr]).
  cbv beta iota. unfold bind at 1.
  rewrite extract_error_code_absent
    by (apply value_offset_absent; [reflexivity | exact Hfree | exact Hc]).
  cbv beta iota.
  rewrite (extract_string_run (quoted "message") set_error_message _ _ eq_refl Hfree).
  rewrite (string_field_absent _ _ Hmsg). reflexivity.
Qed.

(** X9: round trip on requests.  For every version, method and id that hold
    neither a double quote nor a NUL and are not themselves the name of a
    tracked key, the extractor run on the request text stays inside its
    copy, leaves the copy as it was, and yields exactly these three values,
    every other field unset. *)
Theorem request_round_trip (v m i : string) :
  plain v = true -> plain m = true -> plain i = true ->
  not_a_key v = true -> not_a_key m = true -> not_a_key i = true ->
  parse_json_rpc (c_string (request v m i)) zero_data
  = (Some tt,
     mk_machine (c_string (request v m i))
       (mk_data (Some v) (Some m) (Some i) None None 0 None None false
          None None None)).
Proof. exact (parse_request v m i). Qed.

Lemma request_round_trip_witness :
  parse_json_rpc (c_string (request "2.0" "tools/call" "42")) zero_data
  = (Some tt,
     mk_machine (c_string (request "2.0" "tools/call" "42"))
       (mk_data (Some "2.0") (Some "tools/call") (Some "42") None None 0 None None
          false None None None)).
Proof.
  apply (request_round_trip "2.0" "tools/call" "42"); reflexivity.
Defined.

(** A value that spells a tracked key is taken for that key: with the
    version id, the id of the request is read from the method. *)
Example value_taken_for_key :
  id (extract (request "id" "tools/call" "42")) = Some "tools/call".
Proof. vm_compute. reflexivity. Qed.

(* ================================================================== *)
(** ** extract_agent_id as a function of the params text *)

Lemma after_key_offset (t : string) (k : nat) :
  nul_free t = true -> (k <= String.length t)%nat ->
  match c_strchr COLON (drop k (c_string t)) with
  | Hit c =>
      match skip_blanks (drop (S (k + c)) (c_string t)) with
      | Some w => (S (k + c) + w <= String.length t)%nat
                  /\ after_key (drop k t) = Some (drop (S (k + c) + w) t)
      | None => False
      end
  | Miss => after_key (drop k t) = None
  | Oob => False
  end.
Proof.
  intros Hfree Hk. unfold after_key. rewrite (drop_c_string k t Hk).
  pose proof (c_strchr_find_char COLON (drop k t) eq_refl (nul_free_drop k t Hfree)) as Hc.
  destruct (c_strchr COLON (c_string (drop k t))) as [c | |];
    [| destruct Hc as [Hc _]; rewrite Hc; reflexivity | exact Hc].
  destruct Hc as (Hc & Hfc & _). rewrite Hfc.
  rewrite length_drop in Hc.
  destruct (drop_lt c (drop k t) ltac:(rewrite length_drop; lia)) as [x Hx].
  rewrite Hx, drop_drop.
  replace (k + S c)%nat with (S (k + c)) by lia.
  rewrite (drop_c_string (S (k + c)) t) by lia.
  pose proof (skip_blanks_skip_ws (drop (S (k + c)) t)) as Hw.
  destruct (skip_blanks (c_string (drop (S (k + c)) t))) as [w |]; [| exact Hw].
  destruct Hw as [Hw Hs]. rewrite length_drop in Hw.
  rewrite Hs, drop_drop. split; [lia | reflexivity].
Qed.

Lemma length_take (n : nat) (s : string) :
  (n <= String.length s)%nat -> String.length (take n s) = n.
Proof.
  revert s. induction n as [| n IH]; intros s H; [reflexivity |].
  destruct s as [| x s]; [simpl in H; lia |].
  cbn [take String.length]. f_equal. apply IH. simpl in H. lia.
Qed.

Lemma before_length (c : ascii) (s v : string) :
  before c s = Some v -> (String.length v < String.length s)%nat.
Proof.
  revert v. induction s as [| x s IH]; intros v H; [discriminate |].
  cbn [before] in H. destruct (x =? c)%char.
  - injection H as <-. simpl. lia.
  - destruct (before c s) as [r |]; [| discriminate].
    simpl in H. injection H as <-. specialize (IH r eq_refl). simpl. lia.
Qed.

(** [strncpy] of [n] bytes none of which is a NUL. *)
Lemma c_strncpy_copy (n : nat) (dst src : block) :
  (n <= String.length dst)%nat -> (n <= String.length src)%nat ->
  nul_free (take n src) = true ->
  c_strncpy dst src n false = Some (take n src ++ drop n dst)%string.
Proof.
  revert dst src. induction n as [| n IH]; intros dst src Hd Hs Hfree; [reflexivity |].
  destruct dst as [| y dst]; [simpl in Hd; lia |].
  destruct src as [| x src]; [simpl in Hs; lia |].
  cbn [take nul_free] in Hfree. apply andb_true_iff in Hfree as [Hx Hfree].
  apply negb_true_iff in Hx. cbn [c_strncpy]. rewrite Hx.
  rewrite (IH dst src ltac:(simpl in Hd; lia) ltac:(simpl in Hs; lia) Hfree).
  reflexivity.
Qed.

Lemma drop_zeroed (n m : nat) : drop n (zeroed m) = zeroed (m - n).
Proof.
  revert m. induction n as [| n IH]; intros m; [rewrite Nat.sub_0_r; reflexivity |].
  destruct m as [| m]; [reflexivity |]. simpl. apply IH.
Qed.

Lemma poke_after (a r : string) (x c : ascii) :
  poke (a ++ String x r)%string (String.length a) c = Some (a ++ String c r)%string.
Proof.
  induction a as [| y a IH]; [reflexivity |].
  cbn [append String.length poke]. rewrite IH. reflexivity.
Qed.

Lemma c_text_before_nul (a r : string) :
  nul_free a = true ->
  c_text (a ++ String NUL r)%string = Some a
  /\ c_strlen (a ++ String NUL r)%string = Some (String.length a).
Proof.
  induction a as [| y a IH]; intros H; [split; reflexivity |].
  cbn [nul_free] in H. apply andb_true_iff in H as [Hy H].
  apply negb_true_iff in Hy. destruct (IH H) as [Ht Hl].
  cbn [append c_text c_strlen]. rewrite Hy, Ht, Hl. split; reflexivity.
Qed.

(** The array after [extract_agent_id] copied [n] bytes into it. *)
Lemma agent_array_after_copy (src : block) (n : nat) :
  (n < 256)%nat -> (n <= String.length src)%nat -> nul_free (take n src) = true ->
  exists buf,
    match c_strncpy (zeroed 256) src n false with
    | Some copied => poke copied n NUL
    | None => None
    end = Some buf
    /\ c_strlen buf = Some n /\ c_text buf = Some (take n src).
Proof.
  intros Hn Hs Hfree.
  rewrite (c_strncpy_copy n (zeroed 256) src
             ltac:(rewrite length_zeroed; lia) Hs Hfree).
  rewrite drop_zeroed.
  replace (256 - n)%nat with (S (255 - n)) by lia. cbn [zeroed].
  pose proof (poke_after (take n src) (zeroed (255 - n)) NUL NUL) as Hp.
  rewrite (length_take n src Hs) in Hp. rewrite Hp.
  eexists. split; [reflexivity |].
  destruct (c_text_before_nul (take n src) (zeroed (255 - n)) Hfree) as [Ht Hl].
  rewrite (length_take n src Hs) in Hl. auto.
Qed.

Lemma agent_key_find (t : string) :
  nul_free t = true ->
  match
    match c_strstr (quoted "agentId") (c_string t) with
    | Miss => c_strstr (quoted "agent_id") (c_string t)
    | r => r
    end
  with
  | Hit k =>
      (k <= String.length t)%nat
      /\ match find (quoted "agentId") t with
         | Some s1 => Some s1
         | None => find (quoted "agent_id") t
         end = Some (drop k t)
  | Miss =>
      match find (quoted "agentId") t with
      | Some s1 => Some s1
      | None => find (quoted "agent_id") t
      end = None
  | Oob => False
  end.
Proof.
  intros Hfree.
  pose proof (c_strstr_find (quoted "agentId") t eq_refl Hfree) as H1.
  pose proof (c_strstr_find (quoted "agent_id") t eq_refl Hfree) as H2.
  destruct (c_strstr (quoted "agentId") (c_string t)) as [k | |].
  - destruct H1 as [Hk Hf]. rewrite Hf. auto.
  - rewrite H1. exact H2.
  - exact H1.
Qed.

(** X10: extract_agent_id and its caller on a terminated params text: every read
    stays inside the text and every write inside the 256-byte array, and
    what comes out is [agent_field]: the string at agentId, or at agent_id
    when agentId does not occur anywhere, kept when it has from 1 to 255
    bytes.  A value under agentId that is not a usable string is not retried
    under agent_id. *)
Theorem agent_id_in_agent_field (p : string) :
  nul_free p = true ->
  extract_agent_id (c_string p) (zeroed 256) 256 <> None
  /\ agent_id_in p = agent_field p.
Proof.
  intros Hfree. unfold agent_id_in, agent_field, extract_agent_id, agent_value_span.
  change (256 =? 0)%nat with false. cbv iota zeta.
  pose proof (agent_key_find p Hfree) as Hkey.
  destruct (match c_strstr (quoted "agentId") (c_string p) with
            | Miss => c_strstr (quoted "agent_id") (c_string p)
            | r => r
            end) as [k | |]; [| | contradiction].
  2:{ rewrite Hkey. split; [discriminate | reflexivity]. }
  destruct Hkey as [Hk Hkey]. rewrite Hkey.
  pose proof (after_key_offset p k Hfree Hk) as Hafter.
  destruct (c_strchr COLON (drop k (c_string p))) as [c | |]; [| | contradiction].
  2:{ rewrite Hafter. split; [discriminate | reflexivity]. }
  destruct (skip_blanks (drop (S (k + c)) (c_string p))) as [w |]; [| contradiction].
  destruct Hafter as [Hpos Hafter]. rewrite Hafter.
  rewrite (peek_c_string _ p Hpos).
  destruct (drop (S (k + c) + w) p) as [| x s] eqn:Hs.
  { change (NUL =? DQUOTE)%char with false. cbv iota.
    split; [discriminate | reflexivity]. }
  destruct (Ascii.eqb_spec x DQUOTE) as [-> | _];
    [| split; [discriminate | reflexivity]].
  destruct (drop_next _ p s DQUOTE Hs) as [Hnext Hle].
  assert (Hfs : nul_free s = true)
    by (rewrite <- Hnext; apply nul_free_drop; exact Hfree).
  rewrite (drop_c_string _ p Hle), Hnext.
  pose proof (c_strchr_find_char DQUOTE s eq_refl Hfs) as Hq.
  destruct (c_strchr DQUOTE (c_string s)) as [n | |]; [| | contradiction].
  2:{ destruct Hq as [_ Hb]. rewrite Hb. split; [discriminate | reflexivity]. }
  destruct Hq as (Hn & _ & Hb). rewrite Hb.
  rewrite (length_take n s ltac:(lia)).
  destruct (Nat.ltb_spec n 256) as [Hlt | Hge].
  - destruct (agent_array_after_copy (c_string s) n Hlt
                ltac:(rewrite length_c_string; lia)
                ltac:(rewrite take_c_string by lia; apply nul_free_take; exact Hfs))
      as (buf & Hbuf & Hlen & Htext).
    rewrite (drop_c_string _ p Hle), Hnext.
    rewrite Hbuf, Hlen, Htext, (take_c_string n s ltac:(lia)).
    rewrite andb_true_r. split; [discriminate | reflexivity].
  - rewrite andb_false_r. split; [discriminate | reflexivity].
Qed.

Lemma agent_id_in_agent_field_witness :
  extract_agent_id (c_string (json "{'x':1,'agent_id' : 'bot-7'}")) (zeroed 256) 256
  <> None
  /\ agent_id_in (json "{'x':1,'agent_id' : 'bot-7'}")
     = agent_field (json "{'x':1,'agent_id' : 'bot-7'}").
Proof.
  apply (agent_id_in_agent_field (json "{'x':1,'agent_id' : 'bot-7'}")). reflexivity.
Defined.

(** An unusable value under agentId hides a good one under agent_id. *)
Example agent_id_not_retried :
  agent_field (json "{'agentId':7,'agent_id':'bot-7'}") = None
  /\ agent_field (json "{'x':1,'agent_id' : 'bot-7'}") = Some "bot-7".
Proof. vm_compute. split; reflexivity. Qed.

(* ================================================================== *)
(** ** Items and the registered field types *)

Lemma to_int_range (z : Z) : - 2 ^ 31 <= to_int z < 2 ^ 31.
Proof.
  unfold to_int. pose proof (Z.mod_pos_bound (z + 2 ^ 31) (2 ^ 32) eq_refl). lia.
Qed.

Lemma preserves_int32_extract_error_code : preserves int32_code extract_error_code.
Proof.
  unfold extract_error_code.
  apply preserves_bind; [frame | intros pos].
  apply preserves_when_found. intros p.
  apply preserves_bind; [frame | intros c].
  destruct ((c =? "-")%char || is_digit c)%bool;
    [| apply preserves_silent, silent_ret].
  intros m Hm. unfold bind, strtol, reading.
  destruct (c_strtol (drop p (json_copy m))) as [z |]; simpl; [| exact Hm].
  apply to_int_range.
Qed.

Lemma preserves_int32_parse_fields : preserves int32_code parse_fields.
Proof.
  unfold parse_fields.
  repeat (apply preserves_bind; [| intros _]).
  - apply preserves_extract_string. intros v d H. exact H.
  - apply preserves_extract_string. intros v d H. exact H.
  - apply preserves_extract_id. intros v d H. exact H.
  - unfold extract_encryption. frame.
    + apply preserves_extract_string. intros v d H. exact H.
    + apply preserves_extract_string. intros v d H. exact H.
    + apply preserves_extract_object; [intros v d H; exact H | intros v; frame].
  - apply preserves_extract_object; [intros v d H; exact H | intros v].
    apply preserves_agent_id_from_params. intros a d H. exact H.
  - apply preserves_extract_object; [intros v d H; exact H | intros v; frame].
  - apply preserves_int32_extract_error_code.
  - apply preserves_extract_string. intros v d H. exact H.
Qed.

Lemma item_typed (parent : proto_tree) (field : hf) (buf : buffer_ref)
    (start len : Z) (v : field_value) (t : ftenum) :
  option_map hf_type (registered field) = Some t -> fits t v = true ->
  well_typed (add_item parent field buf start len v) = true.
Proof.
  intros H Hv. unfold well_typed.
  destruct (registered field) as [info |]; [| discriminate].
  simpl in H. injection H as ->. exact Hv.
Qed.

Lemma forallb_app_intro {A : Type} (f : A -> bool) (a b : list A) :
  forallb f a = true -> forallb f b = true -> forallb f (a ++ b) = true.
Proof. intros Ha Hb. rewrite forallb_app, Ha, Hb. reflexivity. Qed.

Lemma add_string_typed (parent : proto_tree) (field : hf) (v : option string) :
  option_map hf_type (registered field) = Some FT_STRING ->
  forallb well_typed (add_string parent field v) = true.
Proof.
  intros H. destruct v as [s |]; [| reflexivity].
  cbn [add_string forallb]. rewrite item_typed with (t := FT_STRING) by (assumption || reflexivity).
  reflexivity.
Qed.

Lemma fits_int32 (z : Z) : - 2 ^ 31 <= z < 2 ^ 31 -> fits FT_INT32 (Int z) = true.
Proof.
  intros H. cbn [fits]. apply andb_true_iff. split; [apply Z.leb_le | apply Z.ltb_lt]; lia.
Qed.

Lemma fits_uint8 (z : Z) : 0 <= z < 2 ^ 8 -> fits FT_UINT8 (Uint z) = true.
Proof.
  intros H. cbn [fits]. apply andb_true_iff. split; [apply Z.leb_le | apply Z.ltb_lt]; lia.
Qed.

Lemma fits_uint32 (z : Z) : 0 <= z < 2 ^ 32 -> fits FT_UINT32 (Uint z) = true.
Proof.
  intros H. cbn [fits]. apply andb_true_iff. split; [apply Z.leb_le | apply Z.ltb_lt]; lia.
Qed.

Lemma mcp_events_typed (d : mcp_json_data_t) :
  int32_code d -> forallb well_typed (mcp_events d) = true.
Proof.
  intros Hcode. unfold mcp_events.
  apply forallb_app_intro; [reflexivity |].
  apply forallb_app_intro; [apply add_string_typed; reflexivity |].
  apply forallb_app_intro.
  { destruct (method d) as [m |]; [| reflexivity].
    cbn [forallb]. rewrite item_typed with (t := FT_STRING) by reflexivity.
    destruct (get_method_description m); reflexivity. }
  apply forallb_app_intro; [apply add_string_typed; reflexivity |].
  apply forallb_app_intro.
  { destruct (encrypted d); [| reflexivity].
    apply forallb_app_intro.
    - cbn [forallb].
      rewrite item_typed with (t := FT_BOOLEAN) by reflexivity. reflexivity.
    - repeat (apply forallb_app_intro; [apply add_string_typed; reflexivity |]).
      apply add_string_typed; reflexivity. }
  apply forallb_app_intro; [apply add_string_typed; reflexivity |].
  apply forallb_app_intro; [apply add_string_typed; reflexivity |].
  apply forallb_app_intro.
  { destruct (error_code d =? 0); [reflexivity |].
    cbn [forallb].
    rewrite item_typed with (t := FT_INT32)
      by (reflexivity || (apply fits_int32; exact Hcode)).
    reflexivity. }
  apply forallb_app_intro; [apply add_string_typed; reflexivity |].
  apply forallb_app_intro; [apply add_string_typed; reflexivity |].
  apply forallb_app_intro; [reflexivity |].
  apply forallb_app_intro.
  { destruct (method d) as [m |]; [| reflexivity].
    destruct (encrypted d); reflexivity. }
  destruct (error_code d =? 0); reflexivity.
Qed.

Lemma ws_events_typed (f : ws_frame) :
  0 <= opcode f <= 15 -> 0 <= payload_len f < 2 ^ 32 ->
  forallb well_typed (ws_events f) = true.
Proof.
  intros Hop Hlen. unfold ws_events. cbn [forallb].
  rewrite item_typed with (t := FT_UINT8)
    by (reflexivity || (apply fits_uint8; lia)).
  rewrite item_typed with (t := FT_BOOLEAN) by reflexivity.
  rewrite item_typed with (t := FT_UINT32)
    by (reflexivity || (apply fits_uint32; exact Hlen)).
  reflexivity.
Qed.

(** X11: whatever the captured bytes, every item dissect_mcp_websocket adds is of
    a field proto_register_mcp registered, through the accessor of that
    field's type, with a value in the type's range: the opcode fits FT_UINT8,
    the payload length FT_UINT32, the error code FT_INT32, and every string
    field is FT_STRING. *)
Theorem items_fit_registered_types (tvb : tvbuff_t) :
  forallb well_typed (events (dissect_mcp_websocket tvb)) = true.
Proof.
  unfold dissect_mcp_websocket.
  destruct (decode_header tvb) as [| | f] eqn:Hdec; try reflexivity.
  destruct (decode_header_frame_ranges tvb f Hdec) as (_ & Hop & Hlen & _).
  assert (Hws : forallb well_typed (ws_events f) = true)
    by (apply ws_events_typed; [exact Hop | lia]).
  cbv zeta.
  destruct ((0 <? payload_len f)
            && (u32 (offset f + payload_len f) <=? tvb_captured_length tvb));
    [| exact Hws].
  destruct (tvb_new_subset_length tvb (offset f) (to_int (payload_len f)))
    as [payload_tvb |]; [| exact Hws].
  assert (Hshown :
            forallb well_typed
              (ws_events f
               ++ [add_item ws_tree hf_ws_payload on_payload_tvb 0 (-1)
                     (Text (ascii_text payload_tvb))]) = true)
    by (rewrite forallb_app, Hws; reflexivity).
  destruct (opcode f =? 1); [| exact Hshown].
  pose proof (extract_invariant int32_code (ascii_text payload_tvb)
                preserves_int32_parse_fields
                ltac:(unfold int32_code, zero_data; simpl; lia))
    as Hcode.
  unfold extract in Hcode. fold (tvb_get_string_enc payload_tvb) in Hcode.
  destruct (parse_json_rpc (tvb_get_string_enc payload_tvb) zero_data)
    as [[u |] m]; [| exact Hshown].
  cbn [events snd] in *. rewrite forallb_app, Hshown.
  destruct (is_version_2_0 (data m)); [| reflexivity].
  apply mcp_events_typed. exact Hcode.
Qed.

(* ================================================================== *)
(** ** String values end at the first double quote *)

Lemma c_strchr_take (c : ascii) (h : string) (n : nat) :
  c_strchr c h = Hit n ->
  (n < String.length h)%nat /\ nul_free (take n h) = true /\ has c (take n h) = false.
Proof.
  revert n. induction h as [| x h IH]; intros n H; [discriminate |].
  cbn [c_strchr] in H. destruct (x =? c)%char eqn:Hxc.
  - injection H as <-. simpl. repeat split. lia.
  - destruct (x =? NUL)%char eqn:Hx; [discriminate |].
    destruct (c_strchr c h) as [n' | |]; try discriminate.
    injection H as <-. destruct (IH n' eq_refl) as (Hlt & Hfree & Hhas).
    cbn [take nul_free has String.length]. rewrite Hx, Hxc, Hfree, Hhas.
    repeat split. lia.
Qed.

Section Unquoted.

Variable I : mcp_json_data_t -> Prop.

Lemma preserves_quoted_value_unquoted pos set :
  (forall v d, has DQUOTE v = false -> I d -> I (set v d)) ->
  preserves I (quoted_value pos set).
Proof.
  intros Hset m Hm.
  unfold quoted_value, bind, strchr, reading, of_scan, when_found, store,
    wmem_strdup, assign, of_option, ret, fault.
  destruct (c_strchr DQUOTE (drop (S pos) (json_copy m))) as [n | |] eqn:E;
    cbn [snd data json_copy]; try exact Hm.
  destruct (poke (json_copy m) (S pos + n) NUL) as [b1 |] eqn:P;
    cbn [snd data json_copy]; try exact Hm.
  destruct (c_strchr_take _ _ _ E) as (_ & Hfree & Hhas).
  unfold reading. cbn [json_copy].
  rewrite (c_text_cut _ _ _ Hfree (poke_drop _ _ _ _ _ P)).
  cbn [snd data json_copy].
  destruct (poke b1 (S pos + n) DQUOTE); cbn [snd data]; apply Hset; assumption.
Qed.

Lemma preserves_extract_string_unquoted key set :
  (forall v d, has DQUOTE v = false -> I d -> I (set v d)) ->
  preserves I (extract_string key set).
Proof.
  intros Hset. unfold extract_string. frame.
  apply preserves_quoted_value_unquoted. exact Hset.
Qed.

End Unquoted.

Lemma agent_value_span_quote (b : block) (pos n : nat) :
  agent_value_span b = Hit (pos, n) -> c_strchr DQUOTE (drop pos b) = Hit n.
Proof.
  unfold agent_value_span. cbv zeta. intros H.
  destruct (match c_strstr (quoted "agentId") b with
            | Miss => c_strstr (quoted "agent_id") b
            | r => r
            end) as [k | |]; try discriminate.
  destruct (c_strchr COLON (drop k b)) as [c | |]; try discriminate.
  destruct (skip_blanks (drop (S (k + c)) b)) as [w |]; try discriminate.
  destruct (peek b (S (k + c) + w)) as [ch |]; try discriminate.
  destruct (ch =? DQUOTE)%char; try discriminate.
  destruct (c_strchr DQUOTE (drop (S (S (k + c) + w)) b)) as [q | |] eqn:Hq;
    try discriminate.
  injection H as <- <-. exact Hq.
Qed.

Lemma agent_id_in_unquoted (p a : string) :
  agent_id_in p = Some a -> has DQUOTE a = false.
Proof.
  unfold agent_id_in, extract_agent_id. change (256 =? 0)%nat with false. cbv iota.
  destruct (agent_value_span (c_string p)) as [[pos n] | |] eqn:Hspan;
    [| intros H; vm_compute in H; discriminate | discriminate].
  apply agent_value_span_quote in Hspan.
  destruct (c_strchr_take _ _ _ Hspan) as (Hlt & Hfree & Hhas).
  destruct (Nat.ltb_spec n 256) as [Hn | Hn];
    [| intros H; vm_compute in H; discriminate].
  destruct (agent_array_after_copy (drop pos (c_string p)) n Hn ltac:(lia) Hfree)
    as (buf & Hbuf & Hlen & Htext).
  rewrite Hbuf, Hlen, Htext.
  destruct (0 <? n)%nat; [| discriminate].
  intros H. injection H as <-. exact Hhas.
Qed.

Lemma preserves_unquoted_parse_fields : preserves strings_unquoted parse_fields.
Proof.
  unfold parse_fields.
  repeat (apply preserves_bind; [| intros _]).
  - apply preserves_extract_string_unquoted.
    intros v d Hv (H1 & H2 & H3 & H4 & H5 & H6).
    repeat split; try assumption. simpl. rewrite Hv. reflexivity.
  - apply preserves_extract_string_unquoted.
    intros v d Hv (H1 & H2 & H3 & H4 & H5 & H6).
    repeat split; try assumption. simpl. rewrite Hv. reflexivity.
  - apply preserves_extract_id. intros v d H. exact H.
  - unfold extract_encryption. frame.
    + apply preserves_extract_string_unquoted.
      intros v d Hv (H1 & H2 & H3 & H4 & H5 & H6).
      repeat split; try assumption. simpl. rewrite Hv. reflexivity.
    + apply preserves_extract_string_unquoted.
      intros v d Hv (H1 & H2 & H3 & H4 & H5 & H6).
      repeat split; try assumption. simpl. rewrite Hv. reflexivity.
    + apply preserves_extract_object; [intros v d H; exact H | intros v; frame].
  - apply preserves_extract_object; [intros v d H; exact H | intros v].
    intros m Hm. rewrite agent_id_from_params_data.
    destruct (agent_id_in v) as [a |] eqn:Ha; [| exact Hm].
    apply agent_id_in_unquoted in Ha.
    destruct Hm as (H1 & H2 & H3 & H4 & H5 & H6).
    repeat split; try assumption. simpl. rewrite Ha. reflexivity.
  - apply preserves_extract_object; [intros v d H; exact H | intros v; frame].
  - apply preserves_extract_error_code. intros v d H. exact H.
  - apply preserves_extract_string_unquoted.
    intros v d Hv (H1 & H2 & H3 & H4 & H5 & H6).
    repeat split; try assumption. simpl. rewrite Hv. reflexivity.
Qed.

(** X12: whatever the payload, the fields taken from string values (jsonrpc,
    method, ciphertext, iv, the error message and the agent identifier)
    never hold a double quote: a value ends at the first quote after its
    opening one, so an escaped quote cuts it short. *)
Theorem string_fields_hold_no_quote (text : string) :
  unquoted (jsonrpc (extract text)) = true
  /\ unquoted (method (extract text)) = true
  /\ unquoted (ciphertext (extract text)) = true
  /\ unquoted (iv (extract text)) = true
  /\ unquoted (error_message (extract text)) = true
  /\ unquoted (agent_id (extract text)) = true.
Proof.
  apply (extract_invariant strings_unquoted text preserves_unquoted_parse_fields).
  repeat split; reflexivity.
Qed.

(** An escaped quote ends the value: the backslash is kept, the rest is
    lost. *)
Example escaped_quote_cuts_value :
  method (extract (json "{'jsonrpc':'2.0','method':'say \'hi\''}"))
  = Some "say \".
Proof. vm_compute. reflexivity. Qed.

(* ================================================================== *)
(** ** A request in a text frame *)

Lemma length_bytes_of_string (s : string) :
  List.length (bytes_of_string s) = String.length s.
Proof.
  unfold bytes_of_string, list_byte_of_string.
  induction s as [| c s IH]; [reflexivity |]. simpl. rewrite IH. reflexivity.
Qed.

Lemma ascii_text_bytes_of_string (s : string) :
  seven_bit s = true -> ascii_text (bytes_of_string s) = s.
Proof.
  unfold bytes_of_string, list_byte_of_string.
  induction s as [| c s IH]; intros H; [reflexivity |].
  cbn [seven_bit] in H. apply andb_true_iff in H as [Hc Hs].
  cbn [list_ascii_of_string map ascii_text].
  unfold byte_value.
  rewrite (Byte.to_of_N _ (eq_sym (byte_of_ascii_via_N c))).
  apply N.ltb_lt in Hc.
  destruct (Z.ltb_spec (Z.of_N (N_of_ascii c)) 128) as [_ | Hge]; [| lia].
  rewrite ascii_of_byte_of_ascii, (IH Hs). reflexivity.
Qed.

Lemma seven_bit_app (a b : string) :
  seven_bit (a ++ b) = seven_bit a && seven_bit b.
Proof.
  induction a as [| c a IH]; [reflexivity |].
  cbn [append seven_bit]. rewrite IH, andb_assoc. reflexivity.
Qed.

Lemma length_byte (n : nat) :
  (n < 126)%nat ->
  exists b, Byte.of_N (N.of_nat n) = Some b
            /\ byte_value b = Z.of_nat n /\ length_code b = Z.of_nat n.
Proof.
  intros H. destruct (Byte.of_N (N.of_nat n)) as [b |] eqn:Hb.
  - exists b. apply Byte.to_of_N in Hb.
    assert (Hv : byte_value b = Z.of_nat n)
      by (unfold byte_value; rewrite Hb; lia).
    split; [reflexivity | split; [exact Hv |]].
    unfold length_code. rewrite Hv.
    change 0x7F with (Z.ones 7). rewrite Z.land_ones by lia.
    apply Z.mod_small. change (2 ^ 7) with 128. lia.
  - apply Byte.of_N_None_iff in Hb. lia.
Qed.

Lemma request_seven_bit (m i : string) :
  seven_bit m = true -> seven_bit i = true -> seven_bit (request "2.0" m i) = true.
Proof.
  intros Hm Hi. unfold request. rewrite !seven_bit_app, Hm, Hi. reflexivity.
Qed.

(** X13: from the bytes of the frame to the report.  A request of version 2.0
    whose method and id are texts of 7-bit bytes without double quote, not
    the name of a tracked key, sent in one text frame with a one-byte
    length: the dissector shows the WebSocket subtree, the payload, the MCP
    subtree with version, method (with its description when the tables know
    it) and id, sets the protocol column to MCP and the info column to the
    method, and returns the length of the whole frame. *)
Theorem request_frame_report (m i : string) :
  plain m = true -> plain i = true ->
  not_a_key m = true -> not_a_key i = true ->
  seven_bit m = true -> seven_bit i = true ->
  (String.length (request "2.0" m i) < 126)%nat ->
  dissect_mcp_websocket (text_frame (request "2.0" m i))
  = mk_dissection
      (ws_events (mk_frame 1 1 2 (Z.of_nat (String.length (request "2.0" m i))))
       ++ [payload_item (bytes_of_string (request "2.0" m i))]
       ++ request_report m i)
      (Returned (2 + Z.of_nat (String.length (request "2.0" m i)))).
Proof.
  intros Pm Pi Km Ki Sm Si Hlen.
  pose proof (parse_request "2.0" m i eq_refl Pm Pi eq_refl Km Ki) as Hparse.
  pose proof (request_seven_bit m i Sm Si) as Hseven.
  assert (Hpos : (0 < String.length (request "2.0" m i))%nat)
    by (unfold request; simpl; lia).
  set (p := request "2.0" m i) in *.
  destruct (length_byte (String.length p) Hlen) as (b1 & Hb1 & Hval & Hcode).
  unfold text_frame. rewrite Hb1.
  set (tvb := x81 :: b1 :: bytes_of_string p).
  set (f := mk_frame 1 1 2 (Z.of_nat (String.length p))).
  assert (Hdec : decode_header tvb = Frame f).
  { unfold tvb. rewrite decode_header_small by lia. rewrite Hcode. reflexivity. }
  assert (Hcap : tvb_captured_length tvb = 2 + Z.of_nat (String.length p)).
  { unfold tvb, tvb_captured_length. cbn [List.length].
    rewrite length_bytes_of_string. lia. }
  destruct (complete_frame_slice tvb f) as [Hslice _];
    [cbn; lia | cbn; lia | cbn [offset payload_len f]; lia | lia |].
  assert (Hbytes : payload_bytes tvb f = bytes_of_string p).
  { unfold payload_bytes, tvb, f. cbn [offset payload_len].
    change (Z.to_nat 2) with 2%nat. cbn [skipn].
    rewrite Nat2Z.id, <- length_bytes_of_string. apply firstn_all. }
  unfold dissect_mcp_websocket. rewrite Hdec. cbv zeta.
  rewrite Hslice, Hbytes.
  cbn [offset payload_len opcode f].
  unfold u32. rewrite Z.mod_small by lia.
  destruct (Z.ltb_spec 0 (Z.of_nat (String.length p))); [| lia].
  destruct (Z.leb_spec (2 + Z.of_nat (String.length p)) (tvb_captured_length tvb));
    [| lia].
  cbn [andb Z.eqb Pos.eqb].
  unfold tvb_get_string_enc.
  rewrite (ascii_text_bytes_of_string p Hseven), Hparse.
  cbn [data]. rewrite to_int_small by lia.
  unfold is_version_2_0. cbn [jsonrpc String.eqb Ascii.eqb Bool.eqb].
  unfold payload_item. rewrite (ascii_text_bytes_of_string p Hseven).
  rewrite <- app_assoc.
  assert (Hreport :
            mcp_events
              (mk_data (Some "2.0") (Some m) (Some i) None None 0 None None false
                 None None None)
            = request_report m i).
  { unfold mcp_events, request_report, add_string.
    cbn [jsonrpc method id encrypted params result error_code error_message
         agent_id Z.eqb app].
    destruct (get_method_description m); reflexivity. }
  rewrite Hreport. reflexivity.
Qed.

Lemma request_frame_report_witness :
  dissect_mcp_websocket (text_frame (request "2.0" "tools/call" "42"))
  = mk_dissection
      (ws_events
         (mk_frame 1 1 2
            (Z.of_nat (String.length (request "2.0" "tools/call" "42"))))
       ++ [payload_item (bytes_of_string (request "2.0" "tools/call" "42"))]
       ++ request_report "tools/call" "42")
      (Returned (2 + Z.of_nat (String.length (request "2.0" "tools/call" "42")))).
Proof.
  apply (request_frame_report "tools/call" "42"); try reflexivity.
  vm_compute. lia.
Defined.

(* ================================================================== *)
(** ** When the dissector declines *)

Lemma decode_header_cases (tvb : tvbuff_t) :
  (tvb_captured_length tvb < header_length tvb /\ decode_header tvb = TooShort)
  \/ (header_length tvb <= tvb_captured_length tvb
      /\ exists f, decode_header tvb = Frame f /\ offset f = header_length tvb).
Proof.
  destruct tvb as [| b0 [| b1 rest]];
    try (left; split;
         [unfold tvb_captured_length, header_length; simpl; lia
         | apply decode_header_short; unfold tvb_captured_length; simpl; lia]).
  pose proof (decode_header_never_throws (b0 :: b1 :: rest)) as Hn.
  rewrite decode_header_two_bytes in *. cbv zeta in *.
  unfold header_length. cbn [nth_error].
  destruct (length_code b1 =? 126).
  - destruct (Z.ltb_spec (tvb_captured_length (b0 :: b1 :: rest)) 4) as [Hs | Hl].
    + left. split; [exact Hs | reflexivity].
    + right. split; [exact Hl |].
      destruct (tvb_get_ntohs (b0 :: b1 :: rest) 2) as [v |];
        [| elim Hn; reflexivity].
      eexists. split; reflexivity.
  - destruct (length_code b1 =? 127).
    + destruct (Z.ltb_spec (tvb_captured_length (b0 :: b1 :: rest)) 10) as [Hs | Hl].
      * left. split; [exact Hs | reflexivity].
      * right. split; [exact Hl |].
        destruct (tvb_get_ntoh64 (b0 :: b1 :: rest) 2) as [v |];
          [| elim Hn; reflexivity].
        eexists. split; reflexivity.
    + right. split; [unfold tvb_captured_length; simpl List.length; lia |].
      eexists. split; reflexivity.
Qed.

Lemma dissection_starts_with_ws_events (tvb : tvbuff_t) (f : ws_frame) :
  decode_header tvb = Frame f ->
  exists tail, events (dissect_mcp_websocket tvb) = ws_events f ++ tail.
Proof.
  intros Hdec. unfold dissect_mcp_websocket. rewrite Hdec. cbv zeta.
  destruct ((0 <? payload_len f)
            && (u32 (offset f + payload_len f) <=? tvb_captured_length tvb));
    [| exists []; symmetry; apply app_nil_r].
  destruct (tvb_new_subset_length tvb (offset f) (to_int (payload_len f)))
    as [payload_tvb |]; [| exists []; symmetry; apply app_nil_r].
  destruct (opcode f =? 1); [| eexists; reflexivity].
  destruct (parse_json_rpc (tvb_get_string_enc payload_tvb) zero_data)
    as [[u |] m]; [| eexists; reflexivity].
  cbn [events]. rewrite <- app_assoc. eexists. reflexivity.
Qed.

(** X14: the dissector declines exactly the buffers that are shorter than their
    header.  Either the captured bytes are fewer than the header needs (2
    bytes, 4 with length code 126, 10 with length code 127) and the function
    returns 0 having reported nothing; or the header decodes, with that
    length, and the report starts with the WebSocket subtree.  No read of
    the header leaves the captured bytes. *)
Theorem short_header_declined (tvb : tvbuff_t) :
  (tvb_captured_length tvb < header_length tvb
   /\ dissect_mcp_websocket tvb = mk_dissection [] (Returned 0))
  \/ (header_length tvb <= tvb_captured_length tvb
      /\ exists f tail,
           decode_header tvb = Frame f /\ offset f = header_length tvb
           /\ events (dissect_mcp_websocket tvb) = ws_events f ++ tail).
Proof.
  destruct (decode_header_cases tvb) as [[Hs Hd] | [Hl (f & Hd & Hoff)]].
  - left. split; [exact Hs |]. unfold dissect_mcp_websocket. rewrite Hd. reflexivity.
  - right. split; [exact Hl |].
    destruct (dissection_starts_with_ws_events tvb f Hd) as [tail Ht].
    exists f, tail. auto.
Qed.

(* ================================================================== *)
(** ** The encrypted flag and the text *)

Lemma true_literal_found_scan (text : string) :
  nul_free text = true -> true_literal_found (c_string text) = scan_finds_true text.
Proof.
  intros Hfree. unfold true_literal_found, scan_finds_true.
  pose proof (value_offset_value_text (quoted "encrypted") text eq_refl Hfree) as H.
  destruct (value_offset (quoted "encrypted") (c_string text)) as [pos | |];
    [| rewrite H; reflexivity | contradiction].
  destruct H as [Hpos Hvalue]. rewrite Hvalue, (drop_c_string pos text Hpos).
  rewrite (starts_with_is_prefix "true" (drop pos text) eq_refl).
  destruct (is_prefix "true" (drop pos text)); reflexivity.
Qed.

(** C4, as the code has it: ciphertext, iv or ratchet_header is set only if
    the encrypted flag is true, and the flag is raised only by the scan: at
    the first occurrence of the quoted word encrypted, at whatever depth and
    be it a key or a string value, the text after the next colon and blanks
    starts with true.  When that scan finds nothing the flag is false and
    the three fields stay unset, whatever else the text holds. *)
Theorem C4_encryption_fields_gated (text : string) :
  ((ciphertext (extract text) <> None \/ iv (extract text) <> None
    \/ ratchet_header (extract text) <> None) ->
   encrypted (extract text) = true)
  /\ (encrypted (extract text) = false ->
      ciphertext (extract text) = None /\ iv (extract text) = None
      /\ ratchet_header (extract text) = None)
  /\ (nul_free text = true -> scan_finds_true text = false ->
      encrypted (extract text) = false
      /\ ciphertext (extract text) = None /\ iv (extract text) = None
      /\ ratchet_header (extract text) = None).
Proof.
  assert (Hgate : encrypted (extract text) = false ->
                  ciphertext (extract text) = None /\ iv (extract text) = None
                  /\ ratchet_header (extract text) = None).
  { intros Hf. destruct (extract_gated text) as [Hflag | H]; [congruence | exact H]. }
  split; [| split].
  - intros H. destruct (encrypted (extract text)) eqn:E; [reflexivity |].
    destruct (Hgate eq_refl) as (Hc & Hi & Hr).
    destruct H as [H | [H | H]]; [elim H; exact Hc | elim H; exact Hi | elim H; exact Hr].
  - exact Hgate.
  - intros Hfree Hnone.
    assert (Hf : encrypted (extract text) = false).
    { destruct (encrypted (extract text)) eqn:E; [| reflexivity].
      pose proof (extract_flag text Hfree E) as Hfound.
      rewrite (true_literal_found_scan text Hfree) in Hfound. congruence. }
    split; [exact Hf | exact (Hgate Hf)].
Qed.

Lemma C4_encryption_fields_gated_witness :
  encrypted (extract (json "{'encrypted':true,'ciphertext':'xyz','iv':'abc'}")) = true
  /\ ciphertext (extract (json "'encrypted':false,'ciphertext':'xyz'")) = None
  /\ ciphertext (extract (json "{'id':7,'ciphertext':'xyz','iv':'abc'}")) = None.
Proof.
  split; [| split].
  - apply (proj1 (C4_encryption_fields_gated
                    (json "{'encrypted':true,'ciphertext':'xyz','iv':'abc'}"))).
    left. discriminate.
  - apply (proj2 (proj2 (C4_encryption_fields_gated
                           (json "'encrypted':false,'ciphertext':'xyz'"))));
      reflexivity.
  - apply (proj2 (proj2 (C4_encryption_fields_gated
                           (json "{'id':7,'ciphertext':'xyz','iv':'abc'}"))));
      reflexivity.
Defined.

(** C4, as stated, fails on two well-formed texts that hold no top-level
    encrypted member.  In the first the key belongs to a nested object; in
    the second the word is a string value and the true that follows the
    next colon belongs to another key.  Both times the flag is raised and
    ciphertext is filled.  A text whose outermost object has the member is
    told apart by the same reading. *)
Lemma C4_flag_raised_without_top_level_member :
  top_level_encrypted_true (json "{'x':{'encrypted':true},'ciphertext':'c'}") = false
  /\ encrypted (extract (json "{'x':{'encrypted':true},'ciphertext':'c'}")) = true
  /\ ciphertext (extract (json "{'x':{'encrypted':true},'ciphertext':'c'}")) = Some "c"
  /\ top_level_encrypted_true
       (json "{'mode':'encrypted','flag':true,'ciphertext':'xyz'}") = false
  /\ encrypted (extract (json "{'mode':'encrypted','flag':true,'ciphertext':'xyz'}"))
     = true
  /\ ciphertext (extract (json "{'mode':'encrypted','flag':true,'ciphertext':'xyz'}"))
     = Some "xyz"
  /\ top_level_encrypted_true (json "{'id':1, 'encrypted' : true,'ciphertext':'c'}")
     = true.
Proof. vm_compute. repeat split; reflexivity. Qed.

(* ================================================================== *)
(** ** The agent identifier lies in the extracted params text *)




